(** * Backpressure isolation engine of the WebSocket fanout server

    A shallow embedding of [server.py] (class [BroadcastServer] and the
    dataclass [ClientState]) together with the properties of its bounded
    per-client queue, its health policy, its client registry and its inbound
    message handler.

    Conventions of the embedding:
    - wall-clock readings ([time.time()]) are exact rationals; every reading
      the code takes is an explicit argument of the function that takes it;
    - Python [int] is [Z];
    - a [try]/[except] is a [match] on the outcome of the guarded calls;
    - an object mutated in place is passed in and returned. *)

From Stdlib Require Import QArith Qabs Lqa ZArith Lia String List.
From Stdlib Require Import Floats Uint63.
From stdpp Require Import base gmap strings list sorting.

Local Open Scope Z_scope.

(** ** Time and comparisons on it *)

Definition Time := Q.

(** [x < y] on rationals, as a boolean. *)
Definition Qltb (x y : Q) : bool := negb (Qle_bool y x).

(** ** Exceptions and outcomes *)

Inductive exn : Type :=
| QueueFull
| QueueEmpty
| JSONDecodeError
| KeyError
| TypeError
| OverflowError.

(** What a call does: it returns a value or raises. *)
Inductive outcome (A : Type) : Type :=
| Returns (a : A)
| Raises (e : exn).

Arguments Returns {A} a.
Arguments Raises {A} e.

(** ** Queues

    [enqueue_with_drop_oldest] only calls [put_nowait] and [get_nowait] on
    its queue argument.  Both are modelled as transitions of the queue
    object: [put_nowait] reports whether it raised [QueueFull], [get_nowait]
    returns the item or [None] for [QueueEmpty]. *)

Definition Item := string.

Inductive put_result : Type :=
| Put_ok
| Put_QueueFull.

Class NowaitQueue (Qu : Type) : Type := {
  put_nowait : Qu -> Item -> Qu * put_result;
  get_nowait : Qu -> Qu * option Item
}.

(** *** [asyncio.Queue]

    The fields are [_maxsize] and the underlying FIFO [_queue].  A queue
    created with [maxsize <= 0] is unbounded: [full()] is then always
    false. *)

Record Queue : Type := mkQueue {
  maxsize : Z;
  items : list Item
}.

(** [asyncio.Queue(maxsize=n)] *)
Definition new_Queue (n : Z) : Queue := mkQueue n [].

Definition qsize (q : Queue) : Z := Z.of_nat (length (items q)).

Definition empty (q : Queue) : bool :=
  match items q with
  | [] => true
  | _ :: _ => false
  end.

Definition full (q : Queue) : bool :=
  if maxsize q <=? 0 then false else maxsize q <=? qsize q.

Definition Queue_put_nowait (q : Queue) (item : Item) : Queue * put_result :=
  if full q then (q, Put_QueueFull)
  else (mkQueue (maxsize q) (items q ++ [item]), Put_ok).

Definition Queue_get_nowait (q : Queue) : Queue * option Item :=
  match items q with
  | [] => (q, None)
  | x :: rest => (mkQueue (maxsize q) rest, Some x)
  end.

#[export] Instance asyncio_Queue : NowaitQueue Queue := {
  put_nowait := Queue_put_nowait;
  get_nowait := Queue_get_nowait
}.

(** *** A queue shared with other workers

    The relay worker dequeues from the same queue object.  [Contended]
    pairs the queue with a schedule: before each of the caller's operations
    the other workers perform the next batch of the schedule. *)

Inductive env_action : Type :=
| Env_get
| Env_put (item : Item).

Definition env_step (q : Queue) (a : env_action) : Queue :=
  match a with
  | Env_get => fst (Queue_get_nowait q)
  | Env_put x => fst (Queue_put_nowait q x)
  end.

Definition env_run (q : Queue) (batch : list env_action) : Queue :=
  fold_left env_step batch q.

Record Contended : Type := mkContended {
  shared : Queue;
  schedule : list (list env_action)
}.

Definition interleave (c : Contended) : Contended :=
  match schedule c with
  | [] => c
  | batch :: later => mkContended (env_run (shared c) batch) later
  end.

Definition Contended_put_nowait (c : Contended) (item : Item)
  : Contended * put_result :=
  let c1 := interleave c in
  let '(q, r) := Queue_put_nowait (shared c1) item in
  (mkContended q (schedule c1), r).

Definition Contended_get_nowait (c : Contended) : Contended * option Item :=
  let c1 := interleave c in
  let '(q, r) := Queue_get_nowait (shared c1) in
  (mkContended q (schedule c1), r).

#[export] Instance contended_Queue : NowaitQueue Contended := {
  put_nowait := Contended_put_nowait;
  get_nowait := Contended_get_nowait
}.

(** ** Per-client state *)

(** [collections.deque(maxlen=n).append(x)]: at full length the leftmost
    element is discarded. *)
Definition deque_append {A : Type} (maxlen : nat) (d : list A) (x : A) : list A :=
  if (maxlen <=? length d)%nat then skipn (S (length d) - maxlen) (d ++ [x])
  else d ++ [x].

Definition Handle := nat.

Record ClientState : Type := mkClientState {
  queue : option Queue;
  drops_total : Z;
  send_times : list Q;          (* deque(maxlen=100) *)
  last_drop_window : list Time; (* deque(maxlen=100) *)
  queue_full_since : option Time;
  relay_task : option Handle
}.

(** [ClientState()] *)
Definition new_ClientState : ClientState :=
  mkClientState None 0 [] [] None None.

Definition window_maxlen : nat := 100.

Definition set_queue_full_since (v : option Time) (s : ClientState) : ClientState :=
  mkClientState (queue s) (drops_total s) (send_times s) (last_drop_window s)
    v (relay_task s).

Definition set_drops_total (v : Z) (s : ClientState) : ClientState :=
  mkClientState (queue s) v (send_times s) (last_drop_window s)
    (queue_full_since s) (relay_task s).

Definition set_last_drop_window (v : list Time) (s : ClientState) : ClientState :=
  mkClientState (queue s) (drops_total s) (send_times s) v
    (queue_full_since s) (relay_task s).

(** ** Drop-oldest enqueue

    [t_window] and [t_full] are the two successive clock readings of the
    drop branch. The result is the queue, the state, and what the call
    returned ([true]: dropped) or raised. *)

Definition enqueue_with_drop_oldest {Qu : Type} `{NowaitQueue Qu}
    (queue0 : Qu) (item : Item) (state : ClientState) (t_window t_full : Time)
  : Qu * ClientState * outcome bool :=
  match put_nowait queue0 item with
  | (q1, Put_ok) =>
      let state1 :=
        match queue_full_since state with
        | Some _ => set_queue_full_since None state
        | None => state
        end in
      (q1, state1, Returns false)
  | (q1, Put_QueueFull) =>
      (* Drop oldest message *)
      match get_nowait q1 with
      | (q2, Some _) =>
          match put_nowait q2 item with
          | (q3, Put_ok) =>
              let state1 := set_drops_total (drops_total state + 1) state in
              let state2 :=
                set_last_drop_window
                  (deque_append window_maxlen (last_drop_window state1) t_window)
                  state1 in
              let state3 :=
                match queue_full_since state2 with
                | None => set_queue_full_since (Some t_full) state2
                | Some _ => state2
                end in
              (q3, state3, Returns true)
          | (q3, Put_QueueFull) =>
              (* not caught by [except asyncio.QueueEmpty] *)
              (q3, state, Raises QueueFull)
          end
      | (q2, None) =>
          (* Queue became empty between checks, try again *)
          match put_nowait q2 item with
          | (q3, Put_ok) => (q3, state, Returns false)
          | (q3, Put_QueueFull) => (q3, state, Returns true)
          end
      end
  end.

(** The asyncio instance, as [broadcast_queue] and the tests call it. *)
Definition enqueue (q : Queue) (item : Item) (state : ClientState)
    (t_window t_full : Time) : Queue * ClientState * outcome bool :=
  enqueue_with_drop_oldest q item state t_window t_full.

Arguments enqueue_with_drop_oldest {Qu _} queue0 item%_string state
  t_window%_Q t_full%_Q.
Arguments enqueue q item%_string state t_window%_Q t_full%_Q.

(** ** Health check *)

Inductive Mode : Type :=
| naive
| queue_mode.

(** The options of [parse_args] that the modelled code reads. *)
Record Args : Type := mkArgs {
  mode : Mode;
  arg_maxsize : Z;
  drop_limit : Z;
  full_timeout : Q
}.

Arguments mkArgs mode arg_maxsize%_Z drop_limit%_Z full_timeout%_Q.

(** The [while] loop of [should_disconnect_client]: [popleft] as long as the
    window is non-empty and its first entry is less than [now - 10]. *)
Fixpoint prune_window (now : Time) (w : list Time) : list Time :=
  match w with
  | [] => []
  | t :: rest => if Qltb t (now - 10) then prune_window now rest else w
  end.

(** Truth value of an [Optional[float]]: [None] and zero are false. *)
Definition truthy (o : option Time) : bool :=
  match o with
  | None => false
  | Some x => negb (Qeq_bool x 0)
  end.

(** [now] is the clock reading taken on entry.  The state is returned
    because the window is pruned in place. *)
Definition should_disconnect_client (a : Args) (state : ClientState) (now : Time)
  : ClientState * bool :=
  let state1 :=
    set_last_drop_window (prune_window now (last_drop_window state)) state in
  if drop_limit a <? Z.of_nat (length (last_drop_window state1)) then
    (state1, true)
  else if
    truthy (queue_full_since state1)
    && match queue_full_since state1 with
       | Some since => Qltb (full_timeout a) (now - since)
       | None => false
       end
  then (state1, true)
  else (state1, false).

Arguments should_disconnect_client a state now%_Q.

(** ** The server *)

Inductive log_event : Type :=
| Client_connected (total : nat)
| Client_disconnected (total : nat).

(** [clients] is the registry; [relays] are the relay tasks alive on the
    event loop, named by the handle of their client; [log] is what was
    passed to [logger.info], oldest first. *)
Record BroadcastServer : Type := mkServer {
  args : Args;
  clients : gmap Handle ClientState;
  seq : Z;
  total_disconnects : Z;
  e2e_latencies : list Q;  (* deque(maxlen=1000) *)
  relays : gset Handle;
  log : list log_event
}.

(** [BroadcastServer(args)] *)
Definition new_BroadcastServer (a : Args) : BroadcastServer :=
  mkServer a ∅ 0 0 [] ∅ [].

Definition latencies_maxlen : nat := 1000.

(** [handle_client] is the only caller, once per connection and with that
    connection's own object, so a handle is registered once.  A relay task is
    named by the handle of its client; registering a handle whose relay
    still runs would start a second task in the code and is outside what
    [relays] can tell apart. *)
Definition register_client (srv : BroadcastServer) (websocket : Handle)
  : BroadcastServer :=
  let state := new_ClientState in
  let '(state1, relays1) :=
    match mode (args srv) with
    | queue_mode =>
        (mkClientState (Some (new_Queue (arg_maxsize (args srv))))
           (drops_total state) (send_times state) (last_drop_window state)
           (queue_full_since state) (Some websocket),
         {[websocket]} ∪ relays srv)
    | naive => (state, relays srv)
    end in
  let clients1 := <[websocket := state1]> (clients srv) in
  mkServer (args srv) clients1 (seq srv) (total_disconnects srv)
    (e2e_latencies srv) relays1
    (log srv ++ [Client_connected (size clients1)]).

Definition unregister_client (srv : BroadcastServer) (websocket : Handle)
  : BroadcastServer :=
  match clients srv !! websocket with
  | Some state =>
      let relays1 :=
        match relay_task state with
        | Some task => relays srv ∖ {[task]}   (* cancel, then await *)
        | None => relays srv
        end in
      let clients1 := delete websocket (clients srv) in
      mkServer (args srv) clients1 (seq srv) (total_disconnects srv + 1)
        (e2e_latencies srv) relays1
        (log srv ++ [Client_disconnected (size clients1)])
  | None => srv
  end.

(** ** Inbound messages *)

(** What [json.loads] returns.  An object is the association list of its
    members.  A number is an [int] or a finite float; the literals [NaN] and
    [Infinity], which [json.loads] also reads, have no counterpart here. *)
#[local] Set Warnings "-register-all".
Inductive json : Type :=
| JNull
| JBool (b : bool)
| JNumber (x : Q)
| JString (s : string)
| JArray (elems : list json)
| JObject (members : list (string * json)).

Definition is_JString (key : string) (v : json) : bool :=
  match v with
  | JString s => String.eqb s key
  | _ => false
  end.

Definition is_substring (needle hay : string) : bool :=
  match String.index 0 needle hay with
  | Some _ => true
  | None => false
  end.

Fixpoint assoc (key : string) (members : list (string * json)) : option json :=
  match members with
  | [] => None
  | (k, v) :: rest => if String.eqb k key then Some v else assoc key rest
  end.

(** [key in data] *)
Definition py_contains (key : string) (data : json) : outcome bool :=
  match data with
  | JObject members =>
      Returns (match assoc key members with Some _ => true | None => false end)
  | JArray elems => Returns (existsb (is_JString key) elems)
  | JString s => Returns (is_substring key s)
  | JNull | JBool _ | JNumber _ => Raises TypeError
  end.

(** [data[key]] for a string [key] *)
Definition py_getitem (data : json) (key : string) : outcome json :=
  match data with
  | JObject members =>
      match assoc key members with
      | Some v => Returns v
      | None => Raises KeyError
      end
  | _ => Raises TypeError
  end.

(** [now - v] for a float [now] and a [v] that converts to a float *)
Definition py_rsub (now : Time) (v : json) : outcome Q :=
  match v with
  | JNumber x => Returns (now - x)%Q
  | JBool b => Returns (now - (if b then 1 else 0))%Q
  | _ => Raises TypeError
  end.

(** An [int] operand of float arithmetic is converted to a float first, and
    from [2**1024 - 2**970] on, the first magnitude that rounds to [2**1024],
    the conversion raises [OverflowError].  A float is smaller, so a
    [JNumber] of that magnitude is an [int]. *)
Definition float_overflow : Q := inject_Z (2 ^ 1024 - 2 ^ 970).

Definition int_too_large (v : json) : bool :=
  match v with
  | JNumber x => Qle_bool float_overflow (Qabs x)
  | _ => false
  end.

(** [now - v] for a float [now] and any decoded [v] *)
Definition py_float_rsub (now : Time) (v : json) : outcome Q :=
  if int_too_large v then Raises OverflowError else py_rsub now v.

Definition bind {A B : Type} (c : outcome A) (k : A -> outcome B) : outcome B :=
  match c with
  | Returns a => k a
  | Raises e => Raises e
  end.

Notation "'do' x <- c ; k" := (bind c (fun x => k))
  (at level 10, x name, c at level 100, k at level 200).

(** [except (json.JSONDecodeError, KeyError): pass] *)
Definition caught (e : exn) : bool :=
  match e with
  | JSONDecodeError | KeyError => true
  | _ => false
  end.

(** The body of the [async for] loop of [handle_client].  [decoded] is the
    outcome of [json.loads(message)], [now] the clock reading of the ack
    branch. *)
Definition on_message (srv : BroadcastServer) (decoded : outcome json) (now : Time)
  : BroadcastServer * outcome unit :=
  let body : outcome (option Q) :=
    do data <- decoded;
    do has_ack <- py_contains "ack_ts" data;
    if has_ack then
      do ack_ts <- py_getitem data "ack_ts";
      do d <- py_float_rsub now ack_ts;
      Returns (Some (d * 1000)%Q)
    else Returns None in
  match body with
  | Returns (Some e2e_latency) =>
      (mkServer (args srv) (clients srv) (seq srv) (total_disconnects srv)
         (deque_append latencies_maxlen (e2e_latencies srv) e2e_latency)
         (relays srv) (log srv),
       Returns tt)
  | Returns None => (srv, Returns tt)
  | Raises e => if caught e then (srv, Returns tt) else (srv, Raises e)
  end.

Arguments on_message srv decoded now%_Q.

(** The [async for]: it ends when the peer closes, or when an iteration
    raises. *)
Fixpoint read_loop (srv : BroadcastServer) (inbound : list (outcome json * Time))
  : BroadcastServer * outcome unit :=
  match inbound with
  | [] => (srv, Returns tt)
  | (decoded, now) :: rest =>
      match on_message srv decoded now with
      | (srv1, Returns _) => read_loop srv1 rest
      | (srv1, Raises e) => (srv1, Raises e)
      end
  end.

(** [handle_client]: register, read until the loop ends, and unregister in
    the [finally] clause; an exception of the loop is re-raised after it. *)
Definition handle_client (srv : BroadcastServer) (websocket : Handle)
    (inbound : list (outcome json * Time)) : BroadcastServer * outcome unit :=
  let srv1 := register_client srv websocket in
  let '(srv2, r) := read_loop srv1 inbound in
  (unregister_client srv2 websocket, r).

(** The three components of what an enqueue leaves behind. *)
Definition queue_after {Qu : Type} (r : Qu * ClientState * outcome bool) : Qu :=
  fst (fst r).
Definition state_after {Qu : Type} (r : Qu * ClientState * outcome bool)
  : ClientState := snd (fst r).
Definition result_of {Qu : Type} (r : Qu * ClientState * outcome bool)
  : outcome bool := snd r.

(** ** Runs of one client

    What happens to one client's queue and state between admission and
    eviction: [broadcast_queue] enqueues and evaluates the health check, the
    relay takes items.  A run says nothing of the verdicts: it may be
    continued past a check that answered "evict". *)

Inductive op : Type :=
| Op_enqueue (item : Item) (t_window t_full : Time)
| Op_check (now : Time)
| Op_relay_get.

Arguments Op_enqueue item%_string t_window%_Q t_full%_Q.
Arguments Op_check now%_Q.

(** [await state.queue.get()] of [client_relay]; on an empty queue the
    relay stays suspended. *)
Definition relay_get (q : Queue) : Queue := fst (Queue_get_nowait q).

Definition drain (k : nat) (q : Queue) : Queue := Nat.iter k relay_get q.

Definition step (a : Args) (c : Queue * ClientState) (o : op)
  : Queue * ClientState :=
  match o with
  | Op_enqueue item t_window t_full =>
      let r := enqueue (fst c) item (snd c) t_window t_full in
      (queue_after r, state_after r)
  | Op_check now => (fst c, fst (should_disconnect_client a (snd c) now))
  | Op_relay_get => (relay_get (fst c), snd c)
  end.

Definition run (a : Args) (ops : list op) (c : Queue * ClientState)
  : Queue * ClientState :=
  fold_left (step a) ops c.

(** The clock readings at which the enqueues of a run dropped an item. *)
Fixpoint drop_times (a : Args) (ops : list op) (c : Queue * ClientState)
  : list Time :=
  match ops with
  | [] => []
  | o :: rest =>
      match o with
      | Op_enqueue item t_window t_full =>
          match result_of (enqueue (fst c) item (snd c) t_window t_full) with
          | Returns true => [t_window]
          | _ => []
          end
      | _ => []
      end ++ drop_times a rest (step a c o)
  end.

(** A drop at reading [t] is within the trailing window of [now] when it is
    not older than [now - 10]. *)
Definition within_window (now t : Time) : bool := negb (Qltb t (now - 10)).

Definition drops_within_window (now : Time) (ds : list Time) : list Time :=
  List.filter (within_window now) ds.

(** The clock readings of a run never go back: they start at [t0] or later
    and end at [t_end] or earlier. *)
Fixpoint clock_monotone (t0 : Time) (ops : list op) (t_end : Time) : Prop :=
  match ops with
  | [] => (t0 <= t_end)%Q
  | Op_enqueue _ t_window t_full :: rest =>
      (t0 <= t_window)%Q /\ (t_window <= t_full)%Q
      /\ clock_monotone t_full rest t_end
  | Op_check now :: rest => (t0 <= now)%Q /\ clock_monotone now rest t_end
  | Op_relay_get :: rest => clock_monotone t0 rest t_end
  end.

Arguments drops_within_window now%_Q ds.
Arguments clock_monotone t0%_Q ops t_end%_Q.

(** What relates the window [w] to the drops so far, [gone ++ w], at a
    moment when the clock has not passed [t]. *)
Definition window_inv (gone w : list Time) (t : Time) : Prop :=
  StronglySorted Qle (gone ++ w)
  /\ Forall (fun d => (d <= t)%Q) (gone ++ w)
  /\ (length w <= window_maxlen)%nat
  /\ (length w = window_maxlen \/ Forall (fun d => (d < t - 10)%Q) gone).

(** The representation invariant of [asyncio.Queue]: a bounded queue holds
    at most [maxsize] items. *)
Definition queue_ok (q : Queue) : Prop := 0 < maxsize q -> qsize q <= maxsize q.

(** ** What a run moves

    The items handed to the enqueues of a run, and the items its relay
    reads took from the queue, both in order. *)
Definition enqueued (ops : list op) : list Item :=
  flat_map (fun o =>
              match o with
              | Op_enqueue item _ _ => [item]
              | _ => []
              end) ops.

Fixpoint taken (a : Args) (ops : list op) (c : Queue * ClientState)
  : list Item :=
  match ops with
  | [] => []
  | o :: rest =>
      match o with
      | Op_relay_get =>
          match snd (Queue_get_nowait (fst c)) with
          | Some x => [x]
          | None => []
          end
      | _ => []
      end ++ taken a rest (step a c o)
  end.

(** A run in which the relay takes nothing. *)
Definition relay_idle (ops : list op) : Prop :=
  Forall (fun o => o <> Op_relay_get) ops.

(** ** Broadcasting

    [broadcast_queue] and [broadcast_naive] walk over the registered
    clients.  The registry is a map without an order of its own, so both
    take the order of the walk, [order], as an argument: for the code it is
    the order in which the clients were admitted.  What they pass to the
    logger themselves is not recorded in [log]; they return the handles
    they close, in the order they close them. *)

Definition set_queue (v : option Queue) (s : ClientState) : ClientState :=
  mkClientState v (drops_total s) (send_times s) (last_drop_window s)
    (queue_full_since s) (relay_task s).

(** One client's turn in the loop of [broadcast_queue], inside its [try]:
    the enqueue on [state.queue], then the health check.  [clk] holds the
    two clock readings of the enqueue and the reading of the check.  The
    boolean says whether the client is marked for disconnection: because the
    check said so, or because the turn raised ([put_nowait] on a missing
    queue, or [QueueFull] out of the enqueue), which [except Exception]
    catches. *)
Definition queue_turn (a : Args) (message : Item) (state : ClientState)
    (clk : Time * Time * Time) : ClientState * bool :=
  let '(t_window, t_full, now) := clk in
  match queue state with
  | None => (state, true)
  | Some q =>
      let r := enqueue q message state t_window t_full in
      let state1 := set_queue (Some (queue_after r)) (state_after r) in
      match result_of r with
      | Returns _ => should_disconnect_client a state1 now
      | Raises _ => (state1, true)
      end
  end.

Definition queue_pass_step (a : Args) (message : Item)
    (clock : Handle -> Time * Time * Time)
    (acc : gmap Handle ClientState * list Handle) (websocket : Handle)
  : gmap Handle ClientState * list Handle :=
  match fst acc !! websocket with
  | Some state =>
      let r := queue_turn a message state (clock websocket) in
      (<[websocket := fst r]> (fst acc),
       if snd r then snd acc ++ [websocket] else snd acc)
  | None => acc
  end.

Definition with_clients (srv : BroadcastServer)
    (m : gmap Handle ClientState) : BroadcastServer :=
  mkServer (args srv) m (seq srv) (total_disconnects srv) (e2e_latencies srv)
    (relays srv) (log srv).

Definition broadcast_queue (srv : BroadcastServer) (order : list Handle)
    (message : Item) (clock : Handle -> Time * Time * Time)
  : BroadcastServer * list Handle :=
  if decide (clients srv = ∅) then (srv, [])
  else
    let pass :=
      fold_left (queue_pass_step (args srv) message clock) order
        (clients srv, []) in
    (* Clean up clients marked for disconnection *)
    (fold_left unregister_client (snd pass) (with_clients srv (fst pass)),
     snd pass).

(** Whether the turn of [websocket] marks it, given the registry. *)
Definition marked (a : Args) (message : Item)
    (clock : Handle -> Time * Time * Time) (m : gmap Handle ClientState)
    (websocket : Handle) : bool :=
  match m !! websocket with
  | Some state => snd (queue_turn a message state (clock websocket))
  | None => false
  end.

(** How [websocket.send] ends. *)
Inductive send_result : Type :=
| Send_ok
| Send_ConnectionClosed
| Send_error.

Definition send_failed (r : send_result) : bool :=
  match r with
  | Send_ok => false
  | Send_ConnectionClosed | Send_error => true
  end.

(** [broadcast_naive]: one send per client, in turn; the clients whose send
    raised are unregistered after the pass.  [send] tells how the send to
    each client ends. *)
Definition broadcast_naive (srv : BroadcastServer) (order : list Handle)
    (send : Handle -> send_result) : BroadcastServer * list Handle :=
  if decide (clients srv = ∅) then (srv, [])
  else
    let disconnected := List.filter (fun ws => send_failed (send ws)) order in
    (fold_left unregister_client disconnected srv, disconnected).

(** [order] lists the registered clients, each once. *)
Definition lists_clients (order : list Handle) (srv : BroadcastServer) : Prop :=
  NoDup order /\ forall ws, ws ∈ order <-> is_Some (clients srv !! ws).

(** ** The publisher

    [json.dumps] is taken as given: [dumps seq ts_send payload] is the text
    of the envelope.  One [tick] holds what the environment contributes to
    one round of the loop: the clock reading for [ts_send], and for the
    broadcast the order of the walk, the clock readings of each turn and the
    ends of the sends. *)

Record tick : Type := mkTick {
  ts_send : Time;
  tick_order : list Handle;
  tick_clock : Handle -> Time * Time * Time;
  tick_send : Handle -> send_result
}.

Definition with_seq (srv : BroadcastServer) (n : Z) : BroadcastServer :=
  mkServer (args srv) (clients srv) n (total_disconnects srv)
    (e2e_latencies srv) (relays srv) (log srv).

Section Publisher.

Variable dumps : Z -> Time -> string -> Item.
Variable payload : string.

(** One round of the [while True] loop of [publisher], up to the sleep:
    the server after it, the message, and the handles closed. *)
Definition publisher_tick (srv : BroadcastServer) (t : tick)
  : BroadcastServer * Item * list Handle :=
  let srv1 := with_seq srv (seq srv + 1) in
  let message := dumps (seq srv1) (ts_send t) payload in
  let r :=
    match mode (args srv1) with
    | naive => broadcast_naive srv1 (tick_order t) (tick_send t)
    | queue_mode => broadcast_queue srv1 (tick_order t) message (tick_clock t)
    end in
  (fst r, message, snd r).

(** The rounds of the loop for a finite run of ticks, with the messages
    published, in order. *)
Fixpoint publisher (srv : BroadcastServer) (ticks : list tick)
  : BroadcastServer * list Item :=
  match ticks with
  | [] => (srv, [])
  | t :: rest =>
      let '(srv1, message, _) := publisher_tick srv t in
      let '(srv2, messages) := publisher srv1 rest in
      (srv2, message :: messages)
  end.

End Publisher.

(** ** The relay

    [client_relay] takes the next message from the client's queue, writes
    it to the socket and records how long the write took, in milliseconds.
    A [relay_send] holds what the environment contributes to one round: the
    clock readings before and after the write, and how the write ends.
    ([task_done] only feeds [Queue.join], which the server never calls; it
    is left out.) *)

(** How the write of a round ends: [websocket.send] returns or raises, or
    [unregister_client] cancels the task while the write is pending.
    [CancelledError] is not an [Exception]: it passes both handlers of the
    inner [try] and reaches the outer one. *)
Inductive relay_send_end : Type :=
| Send_ends (r : send_result)
| Send_cancelled.

Coercion Send_ends : send_result >-> relay_send_end.

Record relay_send : Type := mkRelaySend {
  send_start : Time;
  send_stop : Time;
  send_end : relay_send_end
}.

Arguments mkRelaySend send_start%_Q send_stop%_Q send_end.

Inductive relay_exit : Type :=
| Relay_waiting    (* suspended in [queue.get()] on an empty queue *)
| Relay_cancelled  (* [CancelledError]: no round left to run *)
| Relay_cancelled_in_send (* [CancelledError] while the write is pending *)
| Relay_closed     (* [ConnectionClosed] out of the send *)
| Relay_failed.    (* another exception out of the send, logged *)

Definition set_send_times (v : list Q) (s : ClientState) : ClientState :=
  mkClientState (queue s) (drops_total s) v (last_drop_window s)
    (queue_full_since s) (relay_task s).

Definition send_times_maxlen : nat := 100.

(** The rounds of the relay on a queue that nobody refills meanwhile: the
    queue and state it leaves, the messages written, and why it stopped. *)
Fixpoint client_relay (sends : list relay_send) (c : Queue * ClientState)
  : Queue * ClientState * list Item * relay_exit :=
  match sends with
  | [] => (c, [], Relay_cancelled)
  | s :: rest =>
      match Queue_get_nowait (fst c) with
      | (_, None) => (c, [], Relay_waiting)
      | (q1, Some message) =>
          match send_end s with
          | Send_ok =>
              let send_time := ((send_stop s - send_start s) * 1000)%Q in
              let state1 :=
                set_send_times
                  (deque_append send_times_maxlen (send_times (snd c)) send_time)
                  (snd c) in
              let '(c2, written, why) := client_relay rest (q1, state1) in
              (c2, message :: written, why)
          | Send_ConnectionClosed => ((q1, snd c), [], Relay_closed)
          | Send_error => ((q1, snd c), [], Relay_failed)
          | Send_cancelled => ((q1, snd c), [], Relay_cancelled_in_send)
          end
      end
  end.

(** ** Metrics

    The percentile computation of [log_metrics], on the samples of the
    latency ring. *)

(** [latencies.sort()] on finite samples: the stable sort into
    non-decreasing order. *)
Fixpoint insert_sorted (x : Q) (l : list Q) : list Q :=
  match l with
  | [] => [x]
  | y :: rest => if Qle_bool x y then x :: l else y :: insert_sorted x rest
  end.

Definition py_sort (l : list Q) : list Q := foldr insert_sorted [] l.

(** [int(n * 0.95)].  The code multiplies in binary64 and truncates; for the
    lengths the ring can have this is the integer quotient below, which
    [p95_idx_binary64] checks on the floats themselves. *)
Definition p95_idx (n : nat) : nat := Z.to_nat (Z.of_nat n * 95 / 100).

(** In binary64, [n * 0.95] lies from [p95_idx n] up to, but not reaching,
    the next integer.  The literal is read as Python reads it, as the nearest
    binary64 value. *)
#[local] Set Warnings "-inexact-float".
Definition p95_idx_in_binary64 (n : nat) : bool :=
  let x := PrimFloat.mul (PrimFloat.of_uint63 (Uint63.of_Z (Z.of_nat n)))
             0.95%float in
  PrimFloat.leb (PrimFloat.of_uint63 (Uint63.of_Z (Z.of_nat (p95_idx n)))) x
  && PrimFloat.ltb x
       (PrimFloat.of_uint63 (Uint63.of_Z (Z.of_nat (p95_idx n) + 1))).

(** The two percentiles, [p50] and [p95]; [None] stands for an
    [IndexError].  [sort] is [latencies.sort()] and [zero] the literal [0].
    The sort is a parameter because the ring holds floats: [list.sort]
    always returns a rearrangement of the list, but with a [nan] among the
    samples, on which every comparison is false, not an ordered one. *)
Definition percentiles_with {A : Type} (sort : list A -> list A) (zero : A)
    (e2e : list A) : option (A * A) :=
  let latencies := sort e2e in
  match latencies with
  | [] => Some (zero, zero)
  | _ :: _ =>
      match latencies !! (length latencies / 2)%nat,
            latencies !! p95_idx (length latencies) with
      | Some p50, Some p95 => Some (p50, p95)
      | _, _ => None
      end
  end.

(** The percentiles of finite samples. *)
Definition percentiles (e2e : list Q) : option (Q * Q) :=
  percentiles_with py_sort 0%Q e2e.

(** ** The client simulator

    [ClientSimulator.process_message] of [clientsim.py]: what one received
    frame does to the statistics of a client.  Every exception of the body
    is caught and printed, so a frame that raises leaves the statistics as
    they are at that point.  What is printed is not modelled. *)

Record ClientStats : Type := mkClientStats {
  count : Z;
  latencies : list Q;
  last_seq : json;
  drops_inferred : Q;
  connect_time : option Time;
  last_message_time : option Time
}.

(** [ClientStats()] *)
Definition new_ClientStats : ClientStats :=
  mkClientStats 0 [] (JNumber 0) 0 None None.

(** The value of a JSON number or boolean in arithmetic and comparisons;
    [None] for the values on which they raise [TypeError]. *)
Definition as_number (v : json) : option Q :=
  match v with
  | JNumber x => Some x
  | JBool b => Some (if b then 1 else 0)%Q
  | _ => None
  end.

Definition process_message (stats : ClientStats) (decoded : outcome json)
    (recv_time : Time) : ClientStats :=
  match decoded with
  | Raises _ => stats
  | Returns data =>
      (* Calculate end-to-end latency *)
      let after_latency : option ClientStats :=
        match py_contains "ts_send" data with
        | Raises _ => None
        | Returns false => Some stats
        | Returns true =>
            match bind (py_getitem data "ts_send") (py_rsub recv_time) with
            | Returns d =>
                Some (mkClientStats (count stats)
                        (latencies stats ++ [(d * 1000)%Q]) (last_seq stats)
                        (drops_inferred stats) (connect_time stats)
                        (last_message_time stats))
            | Raises _ => None
            end
        end in
      match after_latency with
      | None => stats
      | Some stats1 =>
          match data with
          | JObject members =>
              (* seq = data.get("seq", 0) *)
              let seq0 :=
                match assoc "seq" members with
                | Some v => v
                | None => JNumber 0
                end in
              let finish (s : ClientStats) : ClientStats :=
                mkClientStats (count s + 1) (latencies s) seq0
                  (drops_inferred s) (connect_time s) (Some recv_time) in
              (* Detect dropped messages *)
              match as_number (last_seq stats1) with
              | None => stats1
              | Some last =>
                  if Qltb 0 last then
                    match as_number seq0 with
                    | None => stats1
                    | Some s =>
                        if Qltb (last + 1) s then
                          finish
                            (mkClientStats (count stats1) (latencies stats1)
                               (last_seq stats1)
                               (drops_inferred stats1 + (s - last - 1))%Q
                               (connect_time stats1) (last_message_time stats1))
                        else finish stats1
                    end
                  else finish stats1
              end
          | _ => stats1
          end
      end
  end.

(** The frames of one connection, in order. *)
Definition process_messages (stats : ClientStats)
    (frames : list (outcome json * Time)) : ClientStats :=
  fold_left (fun s f => process_message s (fst f) (snd f)) frames stats.

(** The envelope the server publishes, decoded. *)
Definition envelope_json (n : Z) (ts : Time) (payload : string) : json :=
  JObject [("seq"%string, JNumber (inject_Z n));
           ("ts_send"%string, JNumber ts);
           ("payload_b64"%string, JString payload)].

(** The verdicts of the health checks of a run, in order. *)
Fixpoint verdicts (a : Args) (ops : list op) (c : Queue * ClientState)
  : list bool :=
  match ops with
  | [] => []
  | o :: rest =>
      match o with
      | Op_check now => [snd (should_disconnect_client a (snd c) now)]
      | _ => []
      end ++ verdicts a rest (step a c o)
  end.

(** [time.time()] counts seconds since the epoch: a reading is never the
    epoch itself.  [queue_full_since] is only ever [None] or such a
    reading. *)
Definition full_since_is_a_reading (st : ClientState) : Prop :=
  forall since, queue_full_since st = Some since -> ~ (since == 0)%Q.

Definition readings_nonzero (ops : list op) : Prop :=
  Forall (fun o =>
            match o with
            | Op_enqueue _ _ t_full => ~ (t_full == 0)%Q
            | _ => True
            end) ops.

(** * Properties *)

Lemma Qltb_lt (x y : Q) : Qltb x y = true <-> (x < y)%Q.
Proof.
  unfold Qltb. rewrite negb_true_iff. split.
  - intros H. destruct (Qlt_le_dec x y) as [Hlt | Hle]; [exact Hlt |].
    apply Qle_bool_iff in Hle. congruence.
  - intros H. destruct (Qle_bool y x) eqn:E; [| reflexivity].
    apply Qle_bool_iff in E. lra.
Qed.

Lemma Qltb_ge (x y : Q) : Qltb x y = false <-> (y <= x)%Q.
Proof.
  unfold Qltb. rewrite negb_false_iff. apply Qle_bool_iff.
Qed.

(** Scenarios S1 to S3, evaluated. *)

Example s1_run :
  let '(q1, s1, _) := enqueue (new_Queue 2) "a" new_ClientState 1 1 in
  let '(q2, s2, _) := enqueue q1 "b" s1 2 2 in
  let '(q3, s3, r) := enqueue q2 "c" s2 3 3 in
  (items q3, drops_total s3, queue_full_since s3, r)
  = (["b"; "c"]%string, 1, Some 3%Q, Returns true).
Proof. reflexivity. Qed.

Example s2_run :
  let r1 := enqueue (new_Queue 2) "a" new_ClientState 1 1 in
  let r2 := enqueue (queue_after r1) "b" (state_after r1) 2 2 in
  (items (queue_after r2), drops_total (state_after r2),
   queue_full_since (state_after r2), result_of r2)
  = (["a"; "b"]%string, 0, None, Returns false).
Proof. reflexivity. Qed.

Example s3_run :
  let r1 := enqueue (new_Queue 1) "a" new_ClientState 1 1 in
  let r2 := enqueue (queue_after r1) "b" (state_after r1) 2 3 in
  let r3 := enqueue (relay_get (queue_after r2)) "c" (state_after r2) 4 4 in
  (queue_full_since (state_after r1), queue_full_since (state_after r2),
   drops_total (state_after r2), queue_full_since (state_after r3),
   items (queue_after r3))
  = (None, Some 3%Q, 1, None, ["c"%string]).
Proof. reflexivity. Qed.


(** ** The bounded queue *)

Section QueueFacts.

Implicit Types (q : Queue) (item : Item) (st : ClientState).

Lemma full_spec q : full q = true <-> 0 < maxsize q /\ maxsize q <= qsize q.
Proof.
  unfold full. destruct (maxsize q <=? 0) eqn:E.
  - apply Z.leb_le in E. split; [discriminate | lia].
  - apply Z.leb_gt in E. rewrite Z.leb_le. lia.
Qed.

Lemma not_full_spec q :
  full q = false <-> maxsize q <= 0 \/ qsize q < maxsize q.
Proof.
  destruct (full q) eqn:E.
  - apply full_spec in E. split; [discriminate | lia].
  - split; [| reflexivity]. intros _.
    destruct (Z_le_gt_dec (maxsize q) 0); [lia |].
    destruct (Z_lt_le_dec (qsize q) (maxsize q)); [lia |].
    assert (full q = true) by (apply full_spec; lia). congruence.
Qed.

Lemma qsize_app q item :
  qsize (mkQueue (maxsize q) (items q ++ [item])) = qsize q + 1.
Proof. unfold qsize. cbn. rewrite length_app. cbn. lia. Qed.

(** A full queue is never empty: on an [asyncio.Queue] that no other worker
    touches, the removal after a failed insert always finds an item. *)
Lemma full_get_nowait q :
  full q = true ->
  exists x rest, items q = x :: rest
    /\ Queue_get_nowait q = (mkQueue (maxsize q) rest, Some x).
Proof.
  intros Hf. apply full_spec in Hf. unfold qsize in Hf.
  unfold Queue_get_nowait. destruct (items q) as [| x rest] eqn:E.
  - cbn in Hf. lia.
  - exists x, rest. split; reflexivity.
Qed.

Lemma queue_ok_new n : queue_ok (new_Queue n).
Proof. unfold queue_ok, new_Queue, qsize. cbn. lia. Qed.

Lemma queue_ok_put q item : queue_ok q -> queue_ok (fst (Queue_put_nowait q item)).
Proof.
  intros Hok. unfold Queue_put_nowait. destruct (full q) eqn:E; [exact Hok |].
  apply not_full_spec in E. unfold queue_ok. cbn [fst maxsize].
  rewrite qsize_app. intros Hpos. lia.
Qed.

Lemma queue_ok_get q : queue_ok q -> queue_ok (relay_get q).
Proof.
  intros Hok. unfold relay_get, Queue_get_nowait, queue_ok in *.
  unfold qsize in *. destruct (items q) as [| x rest] eqn:E; cbn in *.
  - rewrite E. exact Hok.
  - intros Hpos. specialize (Hok Hpos). lia.
Qed.

Lemma relay_get_maxsize q : maxsize (relay_get q) = maxsize q.
Proof.
  unfold relay_get, Queue_get_nowait. destruct (items q); reflexivity.
Qed.

Lemma relay_get_qsize q : qsize (relay_get q) <= qsize q.
Proof.
  unfold relay_get, Queue_get_nowait, qsize.
  destruct (items q) as [| x rest] eqn:E; cbn; [rewrite E; cbn |]; lia.
Qed.

(** The two ways a call on an [asyncio.Queue] that satisfies its invariant
    can go. *)
Lemma enqueue_not_full q item st t1 t2 :
  full q = false ->
  enqueue q item st t1 t2 =
    (mkQueue (maxsize q) (items q ++ [item]),
     match queue_full_since st with
     | Some _ => set_queue_full_since None st
     | None => st
     end,
     Returns false).
Proof.
  intros Hf. unfold enqueue, enqueue_with_drop_oldest. cbn.
  unfold Queue_put_nowait. rewrite Hf. reflexivity.
Qed.

(** On a full queue the oldest item is removed; the insert that follows
    raises only if the queue held more than [maxsize] items. *)
Lemma enqueue_full_cases q item st t1 t2 :
  full q = true ->
  exists x rest,
    items q = x :: rest
    /\ enqueue q item st t1 t2 =
       if full (mkQueue (maxsize q) rest)
       then (mkQueue (maxsize q) rest, st, Raises QueueFull)
       else
         (mkQueue (maxsize q) (rest ++ [item]),
          mkClientState (queue st) (drops_total st + 1) (send_times st)
            (deque_append window_maxlen (last_drop_window st) t1)
            (match queue_full_since st with
             | None => Some t2
             | Some since => Some since
             end)
            (relay_task st),
          Returns true).
Proof.
  intros Hf. unfold enqueue, enqueue_with_drop_oldest. cbn.
  unfold Queue_put_nowait at 1. rewrite Hf.
  destruct (full_get_nowait q Hf) as (x & rest & Hit & Hget). rewrite Hget.
  exists x, rest. split; [exact Hit |].
  unfold Queue_put_nowait. destruct (full (mkQueue (maxsize q) rest)).
  - reflexivity.
  - cbn. destruct (queue_full_since st) eqn:E;
      unfold set_queue_full_since, set_last_drop_window, set_drops_total; cbn;
      rewrite ?E; reflexivity.
Qed.

Lemma enqueue_full q item st t1 t2 :
  queue_ok q -> full q = true ->
  enqueue q item st t1 t2 =
    (mkQueue (maxsize q) (tl (items q) ++ [item]),
     mkClientState (queue st) (drops_total st + 1) (send_times st)
       (deque_append window_maxlen (last_drop_window st) t1)
       (match queue_full_since st with
        | None => Some t2
        | Some since => Some since
        end)
       (relay_task st),
     Returns true).
Proof.
  intros Hok Hf. unfold enqueue, enqueue_with_drop_oldest. cbn.
  unfold Queue_put_nowait at 1. rewrite Hf.
  destruct (full_get_nowait q Hf) as (x & rest & Hit & Hget). rewrite Hget.
  assert (Hnf : full (mkQueue (maxsize q) rest) = false).
  { apply not_full_spec. apply full_spec in Hf. unfold queue_ok in Hok.
    unfold qsize in *. rewrite Hit in *. cbn in *. lia. }
  unfold Queue_put_nowait. rewrite Hnf. rewrite Hit. cbn.
  destruct (queue_full_since st) eqn:E;
    unfold set_queue_full_since, set_last_drop_window, set_drops_total; cbn;
    rewrite ?E; reflexivity.
Qed.

Lemma queue_ok_enqueue q item st t1 t2 :
  queue_ok q -> queue_ok (queue_after (enqueue q item st t1 t2)).
Proof.
  intros Hok. destruct (full q) eqn:Hf.
  - rewrite enqueue_full by assumption. cbn [queue_after fst].
    apply full_spec in Hf. destruct Hf as [Hpos Hge].
    unfold queue_ok, qsize in *. cbn. intros _. specialize (Hok Hpos).
    destruct (items q) as [| x rest]; cbn in *; [lia |].
    rewrite length_app. cbn. lia.
  - rewrite enqueue_not_full by assumption. cbn [queue_after fst].
    apply not_full_spec in Hf. unfold queue_ok. cbn [maxsize].
    rewrite qsize_app. lia.
Qed.

Lemma enqueue_maxsize q item st t1 t2 :
  maxsize (queue_after (enqueue q item st t1 t2)) = maxsize q.
Proof.
  unfold queue_after, enqueue, enqueue_with_drop_oldest. cbn.
  unfold Queue_put_nowait at 1. destruct (full q) eqn:Hf; [| reflexivity].
  destruct (full_get_nowait q Hf) as (x & rest & Hit & Hget). rewrite Hget.
  unfold Queue_put_nowait.
  destruct (full (mkQueue (maxsize q) rest)); reflexivity.
Qed.

Lemma step_queue_ok a c o : queue_ok (fst c) -> queue_ok (fst (step a c o)).
Proof.
  intros Hok. destruct o as [item t1 t2 | now |]; cbn [step fst].
  - apply queue_ok_enqueue, Hok.
  - exact Hok.
  - apply queue_ok_get, Hok.
Qed.

Lemma step_maxsize a c o : maxsize (fst (step a c o)) = maxsize (fst c).
Proof.
  destruct o as [item t1 t2 | now |]; cbn [step fst].
  - apply enqueue_maxsize.
  - reflexivity.
  - apply relay_get_maxsize.
Qed.

Lemma run_queue_ok a ops : forall c,
  queue_ok (fst c) ->
  queue_ok (fst (run a ops c)) /\ maxsize (fst (run a ops c)) = maxsize (fst c).
Proof.
  induction ops as [| o ops IH]; intros c Hok.
  - split; [exact Hok | reflexivity].
  - change (run a (o :: ops) c) with (run a ops (step a c o)).
    destruct (IH (step a c o) (step_queue_ok a c o Hok)) as [H1 H2].
    split; [exact H1 |]. rewrite H2. apply step_maxsize.
Qed.

Lemma run_app a ops1 ops2 c : run a (ops1 ++ ops2) c = run a ops2 (run a ops1 c).
Proof. unfold run. apply fold_left_app. Qed.

(** Every queue that satisfies the invariant is one that [put_nowait] builds
    from a fresh queue, so the invariant singles out the states an
    [asyncio.Queue] can be in. *)
Lemma put_all_from m (l2 : list Item) : forall l1 : list Item,
  (0 < m -> Z.of_nat (length (l1 ++ l2)) <= m) ->
  fold_left (fun q x => fst (Queue_put_nowait q x)) l2 (mkQueue m l1)
  = mkQueue m (l1 ++ l2).
Proof.
  induction l2 as [| x l2 IH]; intros l1 Hlen; cbn [fold_left].
  - rewrite app_nil_r. reflexivity.
  - assert (Hnf : full (mkQueue m l1) = false).
    { apply not_full_spec. unfold qsize. cbn.
      rewrite length_app in Hlen. cbn in Hlen. lia. }
    unfold Queue_put_nowait at 2. rewrite Hnf. cbn [fst maxsize items].
    rewrite IH.
    + rewrite <- app_assoc. reflexivity.
    + rewrite <- app_assoc. exact Hlen.
Qed.

Lemma queue_ok_reachable q :
  queue_ok q ->
  fold_left (fun q x => fst (Queue_put_nowait q x)) (items q)
    (new_Queue (maxsize q)) = q.
Proof.
  intros Hok. unfold new_Queue. rewrite put_all_from.
  - destruct q; reflexivity.
  - exact Hok.
Qed.

End QueueFacts.

(** C1 (scenario S1). A queue of capacity 2 receives "a" and "b" and nothing
    is taken from it; enqueueing "c" then leaves exactly "b", "c" in that
    order, returns "dropped", brings [drops_total] to 1 and leaves
    [queue_full_since] set. *)
Theorem drop_oldest_basic (ta ta' tb tb' tc tc' : Time) :
  let r1 := enqueue (new_Queue 2) "a" new_ClientState ta ta' in
  let r2 := enqueue (queue_after r1) "b" (state_after r1) tb tb' in
  let r3 := enqueue (queue_after r2) "c" (state_after r2) tc tc' in
  items (queue_after r2) = ["a"; "b"]%string
  /\ items (queue_after r3) = ["b"; "c"]%string
  /\ result_of r3 = Returns true
  /\ drops_total (state_after r3) = 1
  /\ queue_full_since (state_after r3) <> None.
Proof.
  cbn. repeat split; discriminate.
Qed.

(** C3 (I5, P6). After a call on a queue, [queue_full_since] is null when
    the call found the queue not full, that is when its insert went through
    and it returned "not dropped"; when the call found the queue full,
    [queue_full_since] is non-null.  So if the relay makes the queue non-full
    between two enqueues, [queue_full_since] is null after the second. *)
Theorem full_since_follows_fullness (q : Queue) (item : Item) (st : ClientState)
    (t1 t2 : Time) :
  queue_ok q ->
  let r := enqueue q item st t1 t2 in
  (snd (Queue_put_nowait q item) = Put_ok ->
     result_of r = Returns false /\ queue_full_since (state_after r) = None)
  /\ (snd (Queue_put_nowait q item) = Put_QueueFull ->
     result_of r = Returns true /\ queue_full_since (state_after r) <> None)
  /\ (forall (k : nat) (item' : Item) (t3 t4 : Time),
       full (drain k (queue_after r)) = false ->
       queue_full_since
         (state_after
            (enqueue (drain k (queue_after r)) item' (state_after r) t3 t4))
       = None).
Proof.
  intros Hok r. split; [| split].
  - unfold Queue_put_nowait. destruct (full q) eqn:Hf; [discriminate |].
    intros _. subst r. rewrite enqueue_not_full by assumption.
    cbn [result_of state_after fst snd]. split; [reflexivity |].
    destruct (queue_full_since st) eqn:E; [reflexivity | exact E].
  - unfold Queue_put_nowait. destruct (full q) eqn:Hf; [| discriminate].
    intros _. subst r. rewrite enqueue_full by assumption.
    cbn [result_of state_after fst snd queue_full_since].
    split; [reflexivity |]. destruct (queue_full_since st); discriminate.
  - intros k item' t3 t4 Hnf. rewrite enqueue_not_full by assumption.
    cbn [state_after fst snd].
    destruct (queue_full_since (state_after r)) eqn:E; [reflexivity | exact E].
Qed.

Lemma full_since_follows_fullness_witness :
  let q := mkQueue 1 ["a"%string] in
  let r := enqueue q "b" new_ClientState 5 6 in
  queue_ok q
  /\ queue_full_since (state_after r) <> None
  /\ queue_full_since
       (state_after (enqueue (drain 1 (queue_after r)) "c" (state_after r) 7 8))
     = None.
Proof.
  pose proof (full_since_follows_fullness (mkQueue 1 ["a"%string]) "b"%string
                new_ClientState 5%Q 6%Q) as H.
  assert (Hok : queue_ok (mkQueue 1 ["a"%string])).
  { unfold queue_ok, qsize. cbn. lia. }
  specialize (H Hok). cbv zeta in H. destruct H as (_ & Hfull & Hreset).
  split; [exact Hok | split].
  - apply Hfull. reflexivity.
  - apply (Hreset 1%nat "c"%string 7%Q 8%Q). reflexivity.
Defined.

(** C6. Whatever the queue object, when the insert raises [QueueFull], the
    removal that follows raises [QueueEmpty] and the one retry of the insert
    raises [QueueFull] again, the call returns "dropped" and the client state
    is the one it was called with: [drops_total], [last_drop_window] and
    [queue_full_since] are unchanged.  The queue is left as the retry left
    it. *)
Theorem race_then_full_is_silent_drop {Qu : Type} `{NowaitQueue Qu}
    (q q1 q2 q3 : Qu) (item : Item) (st : ClientState) (t1 t2 : Time) :
  put_nowait q item = (q1, Put_QueueFull) ->
  get_nowait q1 = (q2, None) ->
  put_nowait q2 item = (q3, Put_QueueFull) ->
  let r := enqueue_with_drop_oldest q item st t1 t2 in
  result_of r = Returns true
  /\ queue_after r = q3
  /\ state_after r = st
  /\ drops_total (state_after r) = drops_total st
  /\ last_drop_window (state_after r) = last_drop_window st
  /\ queue_full_since (state_after r) = queue_full_since st.
Proof.
  intros Hput Hget Hretry r. subst r. unfold enqueue_with_drop_oldest.
  rewrite Hput, Hget, Hretry. cbn. repeat split.
Qed.

(** A queue of capacity 1 holding "a": the relay takes "a" after the failed
    insert, and another producer refills the queue before the retry. *)
Lemma race_then_full_is_silent_drop_witness :
  let q := mkContended (mkQueue 1 ["a"%string]) [[]; [Env_get]; [Env_put "z"]] in
  let r := enqueue_with_drop_oldest q "b" new_ClientState 5 6 in
  result_of r = Returns true
  /\ queue_after r = mkContended (mkQueue 1 ["z"%string]) []
  /\ state_after r = new_ClientState
  /\ drops_total (state_after r) = drops_total new_ClientState
  /\ last_drop_window (state_after r) = last_drop_window new_ClientState
  /\ queue_full_since (state_after r) = queue_full_since new_ClientState.
Proof.
  apply (race_then_full_is_silent_drop
           (mkContended (mkQueue 1 ["a"%string]) [[]; [Env_get]; [Env_put "z"]])
           (mkContended (mkQueue 1 ["a"%string]) [[Env_get]; [Env_put "z"]])
           (mkContended (mkQueue 1 []) [[Env_put "z"]])
           (mkContended (mkQueue 1 ["z"%string]) [])
           "b"%string new_ClientState 5%Q 6%Q); reflexivity.
Defined.

(** On a queue shared with a relay only, the retry goes through and the call
    returns "not dropped", again without touching the state. *)
Lemma race_then_retry_succeeds :
  let q := mkContended (mkQueue 1 ["a"%string]) [[]; [Env_get]] in
  let r := enqueue_with_drop_oldest q "b" new_ClientState 5 6 in
  result_of r = Returns false
  /\ shared (queue_after r) = mkQueue 1 ["b"%string]
  /\ state_after r = new_ClientState.
Proof. repeat split. Qed.

(** On an [asyncio.Queue] of its own, the call never reaches the [except
    asyncio.QueueEmpty] branch. *)
Lemma no_race_on_own_queue (q : Queue) (item : Item) :
  snd (Queue_put_nowait q item) = Put_QueueFull ->
  empty (fst (Queue_put_nowait q item)) = false
  /\ snd (Queue_get_nowait (fst (Queue_put_nowait q item))) <> None.
Proof.
  unfold Queue_put_nowait. destruct (full q) eqn:Hf; [| discriminate].
  intros _. cbn [fst]. destruct (full_get_nowait q Hf) as (x & rest & Hit & Hget).
  rewrite Hget. unfold empty. rewrite Hit. split; [reflexivity | discriminate].
Qed.

(** C9 (I2, P2), for a bounded queue.  A queue created with a capacity
    [n >= 1] never holds more than [n] items, whatever the broadcaster, the
    health check and the relay do to it, and each enqueue preserves
    [qsize <= maxsize]. *)
Theorem queue_size_bounded (n : Z) :
  0 < n ->
  (forall (a : Args) (st : ClientState) (ops : list op),
      qsize (fst (run a ops (new_Queue n, st))) <= n)
  /\ (forall (q : Queue) (item : Item) (st : ClientState) (t1 t2 : Time),
      maxsize q = n -> qsize q <= maxsize q ->
      let q' := queue_after (enqueue q item st t1 t2) in
      maxsize q' = n /\ qsize q' <= maxsize q').
Proof.
  intros Hn. split.
  - intros a st ops.
    destruct (run_queue_ok a ops (new_Queue n, st) (queue_ok_new n)) as [Hok Hm].
    cbn [fst new_Queue maxsize] in Hm. unfold queue_ok in Hok. lia.
  - intros q item st t1 t2 Hm Hsz q'. subst q'.
    pose proof (enqueue_maxsize q item st t1 t2) as Hm'.
    assert (Hok : queue_ok q) by (intros _; exact Hsz).
    pose proof (queue_ok_enqueue q item st t1 t2 Hok) as Hok'.
    unfold queue_ok in Hok'. split; lia.
Qed.

Lemma queue_size_bounded_witness :
  0 < 2
  /\ qsize (fst (run (mkArgs queue_mode 2 50 5)
                   [Op_enqueue "a" 1 1; Op_enqueue "b" 2 2; Op_enqueue "c" 3 3]
                   (new_Queue 2, new_ClientState))) <= 2.
Proof.
  assert (H2 : 0 < 2) by lia.
  split; [exact H2 |]. apply (proj1 (queue_size_bounded 2 H2)).
Defined.

(** C9 as stated fails for [maxsize = 0]: [asyncio.Queue(maxsize=0)] is
    unbounded, and one enqueue already takes it past its [maxsize]. *)
Lemma queue_unbounded_when_maxsize_zero :
  let q := queue_after (enqueue (new_Queue 0) "a" new_ClientState 1 1) in
  qsize (new_Queue 0) <= maxsize (new_Queue 0)
  /\ ~ (qsize q <= maxsize q).
Proof.
  split; [vm_compute; discriminate |]. vm_compute. intros H. apply H. reflexivity.
Qed.

(** C10. A call on a queue removes at most one item and inserts at most one:
    the items afterwards are the items before without at most one from the
    front and with at most one more at the back; the size stays or grows by
    one; [drops_total] stays or grows by one. *)
Theorem enqueue_changes_at_most_one (q : Queue) (item : Item) (st : ClientState)
    (t1 t2 : Time) :
  queue_ok q ->
  let r := enqueue q item st t1 t2 in
  (exists removed inserted : list Item,
      (length removed <= 1)%nat /\ (length inserted <= 1)%nat
      /\ removed ++ items (queue_after r) = items q ++ inserted)
  /\ (qsize (queue_after r) = qsize q \/ qsize (queue_after r) = qsize q + 1)
  /\ (drops_total (state_after r) = drops_total st
      \/ drops_total (state_after r) = drops_total st + 1).
Proof.
  intros Hok r. subst r. destruct (full q) eqn:Hf.
  - rewrite enqueue_full by assumption.
    cbn [queue_after state_after fst snd items drops_total].
    destruct (full_get_nowait q Hf) as (x & rest & Hit & _).
    split; [| split].
    + exists [x], [item]. rewrite Hit. cbn. repeat split; lia.
    + left. unfold qsize. cbn. rewrite Hit. cbn. rewrite length_app. cbn. lia.
    + right. reflexivity.
  - rewrite enqueue_not_full by assumption.
    cbn [queue_after state_after fst snd items].
    split; [| split].
    + exists [], [item]. cbn. repeat split; lia.
    + right. apply qsize_app.
    + left. destruct (queue_full_since st); reflexivity.
Qed.

Lemma enqueue_changes_at_most_one_witness :
  let q := mkQueue 2 ["a"; "b"]%string in
  let r := enqueue q "c" new_ClientState 3 3 in
  queue_ok q
  /\ qsize (queue_after r) = qsize q
  /\ drops_total (state_after r) = 1.
Proof.
  assert (Hok : queue_ok (mkQueue 2 ["a"; "b"]%string)).
  { unfold queue_ok, qsize. cbn. lia. }
  pose proof (enqueue_changes_at_most_one (mkQueue 2 ["a"; "b"]%string)
                "c"%string new_ClientState 3%Q 3%Q Hok) as H.
  cbv zeta in H. destruct H as (_ & Hsize & Hdrops).
  split; [exact Hok | split].
  - destruct Hsize as [Hs | Hs]; [exact Hs | vm_compute in Hs; discriminate].
  - destruct Hdrops as [Hd | Hd]; [vm_compute in Hd; discriminate | exact Hd].
Defined.

(** ** The health check *)

Section HealthCheck.

Implicit Types (a : Args) (st : ClientState) (now : Time) (w : list Time).

(** What the loop removes is a prefix of entries older than [now - 10]; it
    stops at the first entry that is not. *)
Lemma prune_window_split now w :
  exists old,
    w = old ++ prune_window now w
    /\ Forall (fun t => (t < now - 10)%Q) old
    /\ match prune_window now w with
       | [] => True
       | t :: _ => (now - 10 <= t)%Q
       end.
Proof.
  induction w as [| t w IH]; cbn.
  - exists []. repeat split. constructor.
  - destruct (Qltb t (now - 10)) eqn:E.
    + destruct IH as (old & Hw & Hold & Hhd). exists (t :: old). split; [| split].
      * cbn. rewrite <- Hw. reflexivity.
      * constructor; [apply Qltb_lt, E | exact Hold].
      * exact Hhd.
    + exists []. split; [reflexivity | split; [constructor |]].
      apply Qltb_ge, E.
Qed.

Lemma prune_window_idem now w :
  prune_window now (prune_window now w) = prune_window now w.
Proof.
  induction w as [| t w IH]; cbn; [reflexivity |].
  destruct (Qltb t (now - 10)) eqn:E; [exact IH |]. cbn. rewrite E. reflexivity.
Qed.

Lemma prune_window_length now w :
  (length (prune_window now w) <= length w)%nat.
Proof.
  induction w as [| t w IH]; cbn; [lia |].
  destruct (Qltb t (now - 10)); cbn; lia.
Qed.

(** The verdict, read off the code: the second test takes the truth value of
    [queue_full_since], so a reading of zero counts as null. *)
Lemma should_disconnect_iff a st now :
  snd (should_disconnect_client a st now) = true
  <-> drop_limit a < Z.of_nat (length (prune_window now (last_drop_window st)))
      \/ exists since,
           queue_full_since st = Some since
           /\ ~ (since == 0)%Q
           /\ (full_timeout a < now - since)%Q.
Proof.
  unfold should_disconnect_client. cbn [set_last_drop_window last_drop_window
    queue_full_since].
  destruct (drop_limit a <? _) eqn:Hd.
  - apply Z.ltb_lt in Hd. cbn. split; [intros _; left; exact Hd | reflexivity].
  - apply Z.ltb_ge in Hd. destruct (queue_full_since st) as [since |] eqn:Hs; cbn.
    + destruct (Qeq_bool since 0) eqn:Hz; cbn.
      * apply Qeq_bool_iff in Hz. split; [discriminate |].
        intros [H | (s & Heq & Hnz & _)]; [lia |].
        injection Heq as <-. contradiction.
      * apply Qeq_bool_neq in Hz.
        destruct (Qltb (full_timeout a) (now - since)) eqn:Ht; cbn.
        -- apply Qltb_lt in Ht. split; [| reflexivity]. intros _. right.
           exists since. repeat split; assumption.
        -- apply Qltb_ge in Ht. split; [discriminate |].
           intros [H | (s & Heq & _ & Hlt)]; [lia |].
           injection Heq as <-. lra.
    + split; [discriminate |].
      intros [H | (s & Heq & _)]; [lia | discriminate].
Qed.

Lemma should_disconnect_state a st now :
  fst (should_disconnect_client a st now)
  = set_last_drop_window (prune_window now (last_drop_window st)) st.
Proof.
  unfold should_disconnect_client.
  destruct (drop_limit a <? _); [reflexivity |].
  destruct (_ && _); reflexivity.
Qed.

End HealthCheck.

(** The states the code builds satisfy [full_since_is_a_reading]: the
    field starts as [None] and is only ever assigned [None] or a clock
    reading. *)
Lemma run_full_since_is_a_reading (a : Args) (ops : list op) :
  forall c : Queue * ClientState,
  readings_nonzero ops ->
  full_since_is_a_reading (snd c) ->
  full_since_is_a_reading (snd (run a ops c)).
Proof.
  induction ops as [| o ops IH]; intros c Hr Hst; [exact Hst |].
  apply Forall_cons in Hr. destruct Hr as [Ho Hr].
  change (run a (o :: ops) c) with (run a ops (step a c o)).
  apply IH; [exact Hr |].
  destruct o as [item t1 t2 | now |]; cbn [step snd].
  - destruct (full (fst c)) eqn:Hf.
    + destruct (enqueue_full_cases (fst c) item (snd c) t1 t2 Hf)
        as (x & rest & _ & Heq).
      rewrite Heq. destruct (full (mkQueue (maxsize (fst c)) rest));
        cbn [state_after fst snd]; [exact Hst |].
      intros since. cbn [queue_full_since].
      destruct (queue_full_since (snd c)) as [since0 |] eqn:E.
      * intros Hs. injection Hs as Hs. subst since0. apply (Hst since E).
      * intros Hs. injection Hs as Hs. subst since. exact Ho.
    + rewrite enqueue_not_full by assumption. cbn [state_after fst snd].
      destruct (queue_full_since (snd c)); [| exact Hst].
      intros since Hs. discriminate.
  - rewrite should_disconnect_state. exact Hst.
  - exact Hst.
Qed.

(** C2. For every state whose [queue_full_since] is null or a clock
    reading, and every current time, the check answers "evict" if and only
    if more than [drop_limit] timestamps remain in [last_drop_window] after
    the pruning of the entries older than [now - 10], or [queue_full_since]
    is non-null and [now - queue_full_since] exceeds [full_timeout]; in all
    other cases it answers "healthy".  The window that remains is the stored
    one without its leading entries older than [now - 10]. *)
Theorem health_check_verdict (a : Args) (st : ClientState) (now : Time) :
  full_since_is_a_reading st ->
  let r := should_disconnect_client a st now in
  let remaining := last_drop_window (fst r) in
  let evict :=
    drop_limit a < Z.of_nat (length remaining)
    \/ exists since,
         queue_full_since st = Some since
         /\ (full_timeout a < now - since)%Q in
  (exists old,
      last_drop_window st = old ++ remaining
      /\ Forall (fun t => (t < now - 10)%Q) old
      /\ match remaining with
         | [] => True
         | t :: _ => (now - 10 <= t)%Q
         end)
  /\ (snd r = true <-> evict)
  /\ (snd r = false <-> ~ evict).
Proof.
  intros Hreading r remaining evict.
  assert (Hrem : remaining = prune_window now (last_drop_window st)).
  { subst remaining r. rewrite should_disconnect_state. reflexivity. }
  assert (Hiff : snd r = true <-> evict).
  { subst r evict. rewrite should_disconnect_iff, Hrem. split.
    - intros [H | (since & Hs & _ & Ht)]; [left; exact H | right].
      exists since. split; assumption.
    - intros [H | (since & Hs & Ht)]; [left; exact H | right].
      exists since. split; [exact Hs | split; [apply (Hreading since Hs) | exact Ht]]. }
  split; [| split; [exact Hiff |]].
  - rewrite Hrem. apply prune_window_split.
  - rewrite <- Hiff. destruct (snd r); split; congruence.
Qed.

Lemma health_check_verdict_witness :
  let a := mkArgs queue_mode 100 1 5 in
  let st := mkClientState None 2 [] [1%Q; 95%Q; 96%Q] (Some 94%Q) None in
  let r := should_disconnect_client a st 100 in
  full_since_is_a_reading st
  /\ last_drop_window (fst r) = [95%Q; 96%Q]
  /\ snd r = true.
Proof.
  assert (Hr : full_since_is_a_reading
                 (mkClientState None 2 [] [1%Q; 95%Q; 96%Q] (Some 94%Q) None)).
  { intros since Hs. injection Hs as Hs. subst since. intros H. discriminate H. }
  pose proof (health_check_verdict (mkArgs queue_mode 100 1 5)
                (mkClientState None 2 [] [1%Q; 95%Q; 96%Q] (Some 94%Q) None)
                100%Q Hr) as H.
  cbv zeta in H. destruct H as (_ & Hev & _).
  split; [exact Hr | split; [reflexivity |]].
  apply Hev. left. vm_compute. reflexivity.
Defined.

(** On a state built by hand with [queue_full_since = 0.0] the second test
    of the check is skipped: it takes the truth value of the field where
    [enqueue_with_drop_oldest] tests [is None]. *)
Lemma health_check_misses_zero_full_since :
  let a := mkArgs queue_mode 100 50 5 in
  let st := mkClientState None 1 [] [] (Some 0%Q) None in
  let now := 100%Q in
  queue_full_since st <> None
  /\ (full_timeout a < now - 0)%Q
  /\ snd (should_disconnect_client a st now) = false
  /\ snd (should_disconnect_client a
            (mkClientState None 1 [] [] (Some (1 # 1000)) None) now) = true.
Proof.
  cbn. repeat split; try discriminate.
Qed.

(** C7 as stated fails: the check prunes [last_drop_window] in place. *)
Lemma health_check_prunes_window :
  let a := mkArgs queue_mode 100 50 5 in
  let st := mkClientState None 1 [] [1%Q] None None in
  last_drop_window (fst (should_disconnect_client a st 100)) = []
  /\ fst (should_disconnect_client a st 100) <> st.
Proof.
  split; [reflexivity | discriminate].
Qed.

(** C7, amended.  The check returns a verdict, healthy or evict, that is
    determined by the options, the state and the clock reading.  It assigns
    no field of the state; the one effect is on the [last_drop_window] object,
    which loses exactly its leading entries older than [now - 10]: what is
    removed is a prefix of entries older than [now - 10], what is kept is the
    rest in order, and the first entry kept, if any, is not older than
    [now - 10].  Evaluating it again at the same reading changes nothing
    more. *)
Theorem health_check_frame (a : Args) (st : ClientState) (now : Time) :
  let r := should_disconnect_client a st now in
  (snd r = true \/ snd r = false)
  /\ queue (fst r) = queue st
  /\ drops_total (fst r) = drops_total st
  /\ send_times (fst r) = send_times st
  /\ queue_full_since (fst r) = queue_full_since st
  /\ relay_task (fst r) = relay_task st
  /\ last_drop_window (fst r) = prune_window now (last_drop_window st)
  /\ (exists old,
        last_drop_window st = old ++ last_drop_window (fst r)
        /\ Forall (fun t => (t < now - 10)%Q) old
        /\ match last_drop_window (fst r) with
           | [] => True
           | t :: _ => (now - 10 <= t)%Q
           end)
  /\ (last_drop_window (fst r) = last_drop_window st <->
      match last_drop_window st with
      | [] => True
      | t :: _ => (now - 10 <= t)%Q
      end)
  /\ should_disconnect_client a (fst r) now = r.
Proof.
  intros r. subst r. rewrite should_disconnect_state.
  cbn [set_last_drop_window queue drops_total send_times queue_full_since
       relay_task last_drop_window].
  split; [destruct (snd _); auto |]. repeat (split; [reflexivity |]).
  split; [| split].
  - apply prune_window_split.
  - destruct (last_drop_window st) as [| t w] eqn:E; [split; reflexivity |].
    cbn [prune_window]. destruct (Qltb t (now - 10)) eqn:Et.
    + apply Qltb_lt in Et. split; [| intros H; lra].
      intros H. pose proof (prune_window_length now w) as Hl.
      rewrite H in Hl. cbn in Hl. lia.
    + apply Qltb_ge in Et. split; [intros _; exact Et | reflexivity].
  - unfold should_disconnect_client.
    cbn [set_last_drop_window queue drops_total send_times queue_full_since
         relay_task last_drop_window].
    rewrite prune_window_idem.
    destruct (drop_limit a <? _); [reflexivity |].
    destruct (_ && _); reflexivity.
Qed.

(** ** The drop window over a run *)

Section DropWindow.

Implicit Types (a : Args) (st : ClientState) (now t : Time) (w : list Time).

Lemma window_maxlen_pos : (0 < window_maxlen)%nat.
Proof. unfold window_maxlen. lia. Qed.

Lemma deque_append_short {A : Type} (n : nat) (d : list A) (x : A) :
  (length d < n)%nat -> deque_append n d x = d ++ [x].
Proof.
  intros H. unfold deque_append.
  destruct (n <=? length d)%nat eqn:E; [| reflexivity].
  apply Nat.leb_le in E. lia.
Qed.

Lemma deque_append_at_maxlen {A : Type} (n : nat) (d0 : A) (d : list A) (x : A) :
  length (d0 :: d) = n -> deque_append n (d0 :: d) x = d ++ [x].
Proof.
  intros H. unfold deque_append.
  destruct (n <=? length (d0 :: d))%nat eqn:E.
  - replace (S (length (d0 :: d)) - n)%nat with 1%nat by lia. reflexivity.
  - apply Nat.leb_gt in E. lia.
Qed.

Lemma sorted_snoc (l : list Time) (t : Time) :
  StronglySorted Qle l -> Forall (fun d => (d <= t)%Q) l ->
  StronglySorted Qle (l ++ [t]).
Proof.
  intros Hs Hle. apply StronglySorted_app_2.
  - intros x1 x2 H1 H2. apply list_elem_of_singleton in H2. subst x2.
    rewrite Forall_forall in Hle. apply Hle, H1.
  - exact Hs.
  - repeat constructor.
Qed.

Lemma window_inv_append gone w t t' :
  window_inv gone w t -> (t <= t')%Q ->
  exists gone',
    window_inv gone' (deque_append window_maxlen w t') t'
    /\ gone' ++ deque_append window_maxlen w t' = (gone ++ w) ++ [t'].
Proof.
  intros (Hs & Hle & Hlen & Hcap) Htt.
  assert (Hs' : StronglySorted Qle ((gone ++ w) ++ [t'])).
  { apply sorted_snoc; [exact Hs |].
    eapply Forall_impl; [exact Hle |]. cbn. intros d Hd. lra. }
  assert (Hle' : Forall (fun d => (d <= t')%Q) ((gone ++ w) ++ [t'])).
  { apply Forall_app. split.
    - eapply Forall_impl; [exact Hle |]. cbn. intros d Hd. lra.
    - repeat constructor. lra. }
  destruct (Nat.eq_dec (length w) window_maxlen) as [Heq | Hne].
  - destruct w as [| w0 w].
    + pose proof window_maxlen_pos. cbn in Heq. lia.
    + rewrite (deque_append_at_maxlen _ _ _ _ Heq).
      assert (Hre : (gone ++ [w0]) ++ w ++ [t'] = (gone ++ w0 :: w) ++ [t']).
      { rewrite <- !app_assoc. reflexivity. }
      exists (gone ++ [w0]). split; [| exact Hre].
      unfold window_inv. rewrite Hre. repeat split; try assumption.
      * rewrite length_app. cbn in *. lia.
      * left. rewrite length_app. cbn in *. lia.
  - rewrite deque_append_short by lia.
    exists gone. split; [| rewrite app_assoc; reflexivity].
    unfold window_inv. rewrite app_assoc. repeat split; try assumption.
    + rewrite length_app. cbn. lia.
    + destruct Hcap as [Hcap | Hcap]; [contradiction |]. right.
      eapply Forall_impl; [exact Hcap |]. cbn. intros d Hd. lra.
Qed.

Lemma window_inv_later gone w t t' :
  window_inv gone w t -> (t <= t')%Q -> window_inv gone w t'.
Proof.
  intros (Hs & Hle & Hlen & Hcap) Htt. repeat split; try assumption.
  - eapply Forall_impl; [exact Hle |]. cbn. intros d Hd. lra.
  - destruct Hcap as [Hcap | Hcap]; [left; exact Hcap | right].
    eapply Forall_impl; [exact Hcap |]. cbn. intros d Hd. lra.
Qed.

Lemma window_inv_prune gone w t now :
  window_inv gone w t -> (t <= now)%Q ->
  exists gone',
    window_inv gone' (prune_window now w) now
    /\ gone' ++ prune_window now w = gone ++ w
    /\ Forall (fun d => (now - 10 <= d)%Q) (prune_window now w).
Proof.
  intros (Hs & Hle & Hlen & Hcap) Htt.
  destruct (prune_window_split now w) as (old & Hw & Hold & Hhd).
  assert (Hre : (gone ++ old) ++ prune_window now w = gone ++ w).
  { rewrite <- app_assoc, <- Hw. reflexivity. }
  assert (Hsw : StronglySorted Qle (prune_window now w)).
  { rewrite <- Hre in Hs. apply StronglySorted_app_1_r in Hs. exact Hs. }
  exists (gone ++ old). split; [| split; [exact Hre |]].
  - unfold window_inv. rewrite Hre. repeat split; try assumption.
    + eapply Forall_impl; [exact Hle |]. cbn. intros d Hd. lra.
    + pose proof (prune_window_length now w). lia.
    + destruct (Nat.eq_dec (length (prune_window now w)) window_maxlen)
        as [Heq | Hne]; [left; exact Heq | right].
      apply Forall_app. split; [| exact Hold].
      destruct Hcap as [Hcap | Hcap].
      * (* the window was at full length, so the loop removed something *)
        destruct old as [| o old].
        { cbn in Hw. rewrite <- Hw in Hne. contradiction. }
        apply Forall_forall. intros d Hd.
        assert (Hdo : (d <= o)%Q).
        { rewrite Hw in Hs.
          apply (StronglySorted_app_1_elem_of _ _ _ d o Hs).
          - exact Hd.
          - apply elem_of_app. left. apply list_elem_of_here. }
        apply Forall_inv in Hold. lra.
      * eapply Forall_impl; [exact Hcap |]. cbn. intros d Hd. lra.
  - destruct (prune_window now w) as [| h rest]; [constructor |].
    apply StronglySorted_inv in Hsw. destruct Hsw as [_ Hall].
    constructor; [exact Hhd |].
    eapply Forall_impl; [exact Hall |]. cbn. intros d Hd. lra.
Qed.

(** An enqueue appends its first reading to the window exactly when it
    returns "dropped". *)
Lemma enqueue_window (q : Queue) (item : Item) st (t1 t2 : Time) :
  let r := enqueue q item st t1 t2 in
  (result_of r = Returns true
   /\ last_drop_window (state_after r)
      = deque_append window_maxlen (last_drop_window st) t1)
  \/ (result_of r <> Returns true
      /\ last_drop_window (state_after r) = last_drop_window st).
Proof.
  intros r. subst r. destruct (full q) eqn:Hf.
  - destruct (enqueue_full_cases q item st t1 t2 Hf) as (x & rest & _ & Heq).
    rewrite Heq. destruct (full (mkQueue (maxsize q) rest)).
    + right. cbn. split; [discriminate | reflexivity].
    + left. cbn. split; reflexivity.
  - rewrite enqueue_not_full by assumption. right. cbn.
    split; [discriminate |]. destruct (queue_full_since st); reflexivity.
Qed.

Lemma run_window_inv a ops : forall (c : Queue * ClientState) gone t0 t_end,
  window_inv gone (last_drop_window (snd c)) t0 ->
  clock_monotone t0 ops t_end ->
  exists gone',
    window_inv gone' (last_drop_window (snd (run a ops c))) t_end
    /\ gone' ++ last_drop_window (snd (run a ops c))
       = (gone ++ last_drop_window (snd c)) ++ drop_times a ops c.
Proof.
  induction ops as [| o ops IH]; intros c gone t0 t_end Hinv Hmono.
  - cbn in *. exists gone. split.
    + eapply window_inv_later; eassumption.
    + rewrite app_nil_r. reflexivity.
  - change (run a (o :: ops) c) with (run a ops (step a c o)).
    destruct o as [item t1 t2 | now |]; cbn [clock_monotone] in Hmono;
      cbn [drop_times].
    + destruct Hmono as (H01 & H12 & Hmono).
      destruct (enqueue_window (fst c) item (snd c) t1 t2) as [[Hr Hw] | [Hr Hw]].
      * destruct (window_inv_append _ _ _ t1 Hinv H01) as (g1 & Hinv1 & Heq1).
        apply (window_inv_later _ _ _ t2) in Hinv1; [| exact H12].
        rewrite <- Hw in Hinv1, Heq1.
        destruct (IH (step a c (Op_enqueue item t1 t2)) g1 t2 t_end Hinv1 Hmono)
          as (g2 & Hinv2 & Heq2).
        exists g2. split; [exact Hinv2 |]. rewrite Heq2. cbn [step snd].
        rewrite Heq1, Hr. rewrite <- !app_assoc. reflexivity.
      * apply (window_inv_later _ _ _ t2) in Hinv; [| lra].
        rewrite <- Hw in Hinv.
        destruct (IH (step a c (Op_enqueue item t1 t2)) gone t2 t_end Hinv Hmono)
          as (g2 & Hinv2 & Heq2).
        exists g2. split; [exact Hinv2 |]. rewrite Heq2. cbn [step snd].
        rewrite Hw.
        destruct (result_of (enqueue (fst c) item (snd c) t1 t2)) as [[|] | e];
          [congruence | |]; reflexivity.
    + destruct Hmono as (H0 & Hmono).
      destruct (window_inv_prune _ _ _ now Hinv H0) as (g1 & Hinv1 & Heq1 & _).
      assert (Hst : last_drop_window (snd (step a c (Op_check now)))
                    = prune_window now (last_drop_window (snd c))).
      { cbn [step snd]. rewrite should_disconnect_state. reflexivity. }
      rewrite <- Hst in Hinv1, Heq1.
      destruct (IH (step a c (Op_check now)) g1 now t_end Hinv1 Hmono)
        as (g2 & Hinv2 & Heq2).
      exists g2. split; [exact Hinv2 |]. rewrite Heq2, Heq1. reflexivity.
    + destruct (IH (step a c Op_relay_get) gone t0 t_end Hinv Hmono)
        as (g2 & Hinv2 & Heq2).
      exists g2. split; [exact Hinv2 |]. rewrite Heq2. reflexivity.
Qed.

Lemma filter_all (f : Time -> bool) (l : list Time) :
  Forall (fun d => f d = true) l -> List.filter f l = l.
Proof.
  induction 1 as [| d l Hd _ IH]; cbn; [reflexivity |]. rewrite Hd, IH. reflexivity.
Qed.

Lemma filter_none (f : Time -> bool) (l : list Time) :
  Forall (fun d => f d = false) l -> List.filter f l = [].
Proof.
  induction 1 as [| d l Hd _ IH]; cbn; [reflexivity |]. rewrite Hd. exact IH.
Qed.

End DropWindow.

(** C4.  The health check is meant to count the drops of the last 10
    seconds, but the window is a [deque(maxlen=100)] and forgets all but the
    100 most recent.  [broadcast_queue] on a client that never reads, with
    [--maxsize 1 --drop-limit 100] at 100 messages a second: an enqueue and a
    health check, 102 times, the clock advancing by 10 ms each time.  Every
    check answers "healthy"; at the last one 101 drops lie within the window,
    100 are counted, and the client stays. *)
Theorem drop_window_forgets_beyond_maxlen :
  let a := mkArgs queue_mode 1 100 5 in
  let reading := fun i : nat => (1000 + inject_Z (Z.of_nat i) / 100)%Q in
  let ops :=
    flat_map (fun i => [Op_enqueue "m" (reading i) (reading i);
                        Op_check (reading i)]) (List.seq 0 102) in
  let c0 := (new_Queue 1, new_ClientState) in
  let now := reading 101%nat in
  let r := should_disconnect_client a (snd (run a ops c0)) now in
  forallb negb (verdicts a ops c0) = true
  /\ length (verdicts a ops c0) = 102%nat
  /\ length (drops_within_window now (drop_times a ops c0)) = 101%nat
  /\ drops_total (snd (run a ops c0)) = 101
  /\ length (last_drop_window (fst r)) = 100%nat
  /\ drop_limit a < 101
  /\ snd r = false.
Proof.
  vm_compute. repeat split.
Qed.

(** What the code does count.  From admission on, with a clock that never
    goes back, the window after the pruning of a health check holds the
    drops of the last 10 seconds, most recent last, up to the 100 most recent
    of them.  The count compared with [drop_limit] is therefore the number of
    drops within the trailing window, capped at 100; no drop older than 10
    seconds is counted. *)
Theorem drop_window_counts_recent_drops (a : Args) (q : Queue) (ops : list op)
    (t0 now : Time) :
  clock_monotone t0 ops now ->
  let c0 := (q, new_ClientState) in
  let r := should_disconnect_client a (snd (run a ops c0)) now in
  let recent := drops_within_window now (drop_times a ops c0) in
  last_drop_window (fst r) = skipn (length recent - window_maxlen) recent
  /\ length (last_drop_window (fst r)) = Nat.min window_maxlen (length recent)
  /\ Forall (fun d => (now - 10 <= d)%Q) (last_drop_window (fst r))
  /\ (drop_limit a < Z.of_nat (Nat.min window_maxlen (length recent)) ->
      snd r = true).
Proof.
  intros Hmono c0 r recent.
  assert (Hinv0 : window_inv [] (last_drop_window (snd c0)) t0).
  { unfold window_inv. cbn. split; [constructor |]. split; [constructor |].
    split; [lia | right; constructor]. }
  destruct (run_window_inv a ops c0 [] t0 now Hinv0 Hmono) as (g & Hinv & Hg).
  cbn [app snd c0 last_drop_window new_ClientState] in Hg.
  destruct (window_inv_prune _ _ _ now Hinv (Qle_refl now))
    as (g' & Hinv' & Hg' & Hrecent).
  assert (Hw : last_drop_window (fst r)
               = prune_window now (last_drop_window (snd (run a ops c0)))).
  { subst r. rewrite should_disconnect_state. reflexivity. }
  rewrite <- Hw in Hinv', Hg', Hrecent.
  assert (Hsplit : recent
                   = drops_within_window now g' ++ last_drop_window (fst r)).
  { subst recent. rewrite <- Hg, <- Hg'. unfold drops_within_window.
    rewrite List.filter_app. f_equal. apply filter_all.
    eapply Forall_impl; [exact Hrecent |]. cbn. intros d Hd.
    unfold within_window. apply negb_true_iff, Qltb_ge, Hd. }
  destruct Hinv' as (_ & _ & Hlen & Hcap).
  assert (Hkey : last_drop_window (fst r)
                 = skipn (length recent - window_maxlen) recent
                 /\ length (last_drop_window (fst r))
                    = Nat.min window_maxlen (length recent)).
  { destruct Hcap as [Hfull | Hgone].
    - rewrite Hsplit, length_app, Hfull.
      replace (length (drops_within_window now g') + window_maxlen
               - window_maxlen)%nat
        with (length (drops_within_window now g')) by lia.
      rewrite drop_app_length. split; [reflexivity | lia].
    - assert (Hnone : drops_within_window now g' = []).
      { apply filter_none. eapply Forall_impl; [exact Hgone |]. cbn.
        intros d Hd. unfold within_window.
        apply negb_false_iff, Qltb_lt, Hd. }
      rewrite Hnone in Hsplit. cbn in Hsplit. rewrite Hsplit.
      replace (length (last_drop_window (fst r)) - window_maxlen)%nat
        with 0%nat by lia.
      split; [reflexivity | lia]. }
  destruct Hkey as [Hk1 Hk2]. repeat split; try assumption.
  intros Hlim. subst r. apply should_disconnect_iff. left.
  rewrite <- Hw, Hk2. exact Hlim.
Qed.

(** Three enqueues on a queue of capacity 1: drops at readings 2 and 13, the
    first of them older than 10 seconds at reading 13. *)
Lemma drop_window_counts_recent_drops_witness :
  let a := mkArgs queue_mode 1 0 5 in
  let ops := [Op_enqueue "a" 1 1; Op_enqueue "b" 2 2; Op_enqueue "c" 13 13] in
  let c0 := (new_Queue 1, new_ClientState) in
  let r := should_disconnect_client a (snd (run a ops c0)) 13 in
  clock_monotone 0 ops 13
  /\ drop_times a ops c0 = [2%Q; 13%Q]
  /\ length (last_drop_window (fst r)) = 1%nat
  /\ snd r = true.
Proof.
  assert (Hm : clock_monotone 0
                 [Op_enqueue "a" 1 1; Op_enqueue "b" 2 2; Op_enqueue "c" 13 13]
                 13).
  { cbn. repeat split; apply Qle_bool_iff; reflexivity. }
  pose proof (drop_window_counts_recent_drops (mkArgs queue_mode 1 0 5)
                (new_Queue 1) _ 0%Q 13%Q Hm) as H.
  cbv zeta in H. destruct H as (_ & Hlen & _ & Hverdict).
  split; [exact Hm | split; [reflexivity | split]].
  - rewrite Hlen. reflexivity.
  - apply Hverdict. reflexivity.
Defined.

(** ** The registry *)

(** In queue mode a client is admitted with an empty queue of the configured
    capacity and a relay of its own. *)
Lemma register_client_queue (srv : BroadcastServer) (websocket : Handle) :
  mode (args srv) = queue_mode ->
  exists state,
    clients (register_client srv websocket) !! websocket = Some state
    /\ queue state = Some (new_Queue (arg_maxsize (args srv)))
    /\ drops_total state = 0
    /\ last_drop_window state = []
    /\ queue_full_since state = None
    /\ websocket ∈ relays (register_client srv websocket).
Proof.
  intros Hmode. unfold register_client. rewrite Hmode. cbn.
  eexists. split; [apply lookup_insert_eq |]. cbn.
  repeat split. set_solver.
Qed.

Lemma unregister_absent (srv : BroadcastServer) (websocket : Handle) :
  clients srv !! websocket = None -> unregister_client srv websocket = srv.
Proof. intros H. unfold unregister_client. rewrite H. reflexivity. Qed.

Lemma unregister_present (srv : BroadcastServer) (websocket : Handle)
    (state : ClientState) :
  clients srv !! websocket = Some state ->
  unregister_client srv websocket
  = mkServer (args srv) (delete websocket (clients srv)) (seq srv)
      (total_disconnects srv + 1) (e2e_latencies srv)
      (match relay_task state with
       | Some task => relays srv ∖ {[task]}
       | None => relays srv
       end)
      (log srv ++ [Client_disconnected (size (delete websocket (clients srv)))]).
Proof. intros H. unfold unregister_client. rewrite H. reflexivity. Qed.

(** C8 (P4). Unregistering a handle twice in succession leaves the server as
    unregistering it once does.  For a registered handle the entry is gone
    and the disconnect counter is one higher, not two; for an unregistered
    handle nothing changes. *)
Theorem unregister_idempotent (srv : BroadcastServer) (websocket : Handle) :
  unregister_client (unregister_client srv websocket) websocket
  = unregister_client srv websocket
  /\ (forall state : ClientState,
        clients srv !! websocket = Some state ->
        let srv2 := unregister_client (unregister_client srv websocket) websocket in
        clients srv2 !! websocket = None
        /\ clients srv2 = delete websocket (clients srv)
        /\ total_disconnects srv2 = total_disconnects srv + 1)
  /\ (clients srv !! websocket = None ->
        unregister_client (unregister_client srv websocket) websocket = srv).
Proof.
  assert (Hidem : unregister_client (unregister_client srv websocket) websocket
                  = unregister_client srv websocket).
  { destruct (clients srv !! websocket) as [state |] eqn:E.
    - rewrite (unregister_present _ _ _ E). apply unregister_absent.
      cbn [clients]. apply lookup_delete_eq.
    - rewrite (unregister_absent _ _ E). apply unregister_absent, E. }
  split; [exact Hidem | split].
  - intros state Hin srv2. subst srv2. rewrite Hidem.
    rewrite (unregister_present _ _ _ Hin). cbn [clients total_disconnects].
    split; [apply lookup_delete_eq | split; reflexivity].
  - intros Hout. rewrite Hidem. apply unregister_absent, Hout.
Qed.

Lemma unregister_idempotent_witness :
  let srv := register_client (new_BroadcastServer (mkArgs queue_mode 2 50 5)) 7%nat in
  let srv2 := unregister_client (unregister_client srv 7%nat) 7%nat in
  clients srv !! 7%nat <> None
  /\ clients srv2 !! 7%nat = None
  /\ total_disconnects srv2 = 1.
Proof.
  pose proof (unregister_idempotent
                (register_client
                   (new_BroadcastServer (mkArgs queue_mode 2 50 5)) 7%nat)
                7%nat) as (_ & Hin & _).
  split; [vm_compute; discriminate |].
  destruct (Hin (mkClientState (Some (new_Queue 2)) 0 [] [] None (Some 7%nat)))
    as (Hgone & _ & Hcount).
  - vm_compute. reflexivity.
  - split; [exact Hgone | exact Hcount].
Defined.

(** ** Inbound messages *)

Section Inbound.

Implicit Types (srv : BroadcastServer) (now : Time).

(** A frame that is not JSON is ignored. *)
Lemma on_message_not_json srv now :
  on_message srv (Raises JSONDecodeError) now = (srv, Returns tt).
Proof. reflexivity. Qed.

(** An object without [ack_ts] is ignored. *)
Lemma on_message_no_ack srv members now :
  assoc "ack_ts" members = None ->
  on_message srv (Returns (JObject members)) now = (srv, Returns tt).
Proof.
  intros H. unfold on_message. cbn. rewrite H. reflexivity.
Qed.

(** An object with a numeric [ack_ts] that converts to a float adds one
    latency sample, in milliseconds, and nothing else. *)
Lemma on_message_numeric_ack srv members x now :
  assoc "ack_ts" members = Some (JNumber x) ->
  int_too_large (JNumber x) = false ->
  on_message srv (Returns (JObject members)) now
  = (mkServer (args srv) (clients srv) (seq srv) (total_disconnects srv)
       (deque_append latencies_maxlen (e2e_latencies srv) ((now - x) * 1000)%Q)
       (relays srv) (log srv),
     Returns tt).
Proof.
  intros H Hx. unfold on_message.
  cbn [bind py_contains py_getitem]. rewrite H. cbn [bind].
  unfold py_float_rsub. rewrite Hx. reflexivity.
Qed.

(** An [ack_ts] of [10**400] raises [OverflowError], which the handler does
    not catch either. *)
Lemma on_message_huge_ack srv :
  on_message srv (Returns (JObject [("ack_ts"%string, JNumber (inject_Z (10 ^ 400)))]))
    100
  = (srv, Raises OverflowError).
Proof.
  unfold on_message. cbn [bind py_contains py_getitem assoc].
  change (String.eqb "ack_ts" "ack_ts") with true. cbn [bind].
  unfold py_float_rsub.
  replace (int_too_large (JNumber (inject_Z (10 ^ 400)))) with true
    by (vm_compute; reflexivity).
  reflexivity.
Qed.

Lemma py_float_rsub_TypeError now v :
  py_float_rsub now v = Raises TypeError <-> py_rsub now v = Raises TypeError.
Proof.
  unfold py_float_rsub. destruct v; cbn [int_too_large py_rsub]; try tauto.
  destruct (Qle_bool float_overflow (Qabs x)); split; discriminate.
Qed.

Lemma py_float_rsub_OverflowError now v :
  py_float_rsub now v = Raises OverflowError
  <-> exists x, v = JNumber x /\ (float_overflow <= Qabs x)%Q.
Proof.
  unfold py_float_rsub. destruct v; cbn [int_too_large py_rsub];
    try (split; [discriminate | intros (x0 & Hx & _); discriminate]).
  destruct (Qle_bool float_overflow (Qabs x)) eqn:E.
  - split; [| reflexivity]. intros _. exists x. split; [reflexivity |].
    apply Qle_bool_iff. exact E.
  - split; [discriminate |]. intros (x0 & Hx & Hle). injection Hx as <-.
    apply Qle_bool_iff in Hle. congruence.
Qed.

(** An object whose [ack_ts] is not a number raises [TypeError], which the
    handler does not catch. *)
Lemma on_message_wrong_type srv members v now :
  assoc "ack_ts" members = Some v ->
  py_rsub now v = Raises TypeError ->
  on_message srv (Returns (JObject members)) now = (srv, Raises TypeError).
Proof.
  intros H Hv. apply (py_float_rsub_TypeError now v) in Hv.
  unfold on_message. cbn [bind py_contains py_getitem]. rewrite H. cbn [bind].
  rewrite Hv. reflexivity.
Qed.

End Inbound.

(** C5. The handler ignores frames that are not JSON and objects without
    [ack_ts], and records numeric acks; but it catches only
    [JSONDecodeError] and [KeyError].  An [ack_ts] that is not a number, or a
    JSON value that is not an object, raises [TypeError] out of the handler:
    the read loop ends, the client is unregistered, and an ack that follows
    is never recorded. *)
Theorem wrong_type_ack_escapes_handler :
  let a := mkArgs queue_mode 2 50 5 in
  let srv0 := register_client (new_BroadcastServer a) 7%nat in
  let bad := Returns (JObject [("ack_ts"%string, JString "soon")]) in
  let ack := Returns (JObject [("ack_ts"%string, JNumber 99)]) in
  on_message srv0 bad 100 = (srv0, Raises TypeError)
  /\ on_message srv0 (Returns (JNumber 5)) 100 = (srv0, Raises TypeError)
  /\ on_message srv0 (Returns JNull) 100 = (srv0, Raises TypeError)
  /\ (let r := handle_client (new_BroadcastServer a) 7%nat
                 [(bad, 100%Q); (ack, 100%Q)] in
      snd r = Raises TypeError
      /\ clients (fst r) !! 7%nat = None
      /\ total_disconnects (fst r) = 1
      /\ e2e_latencies (fst r) = [])
  /\ (let r := read_loop srv0 [(Raises JSONDecodeError, 100%Q); (ack, 100%Q)] in
      snd r = Returns tt
      /\ clients (fst r) !! 7%nat <> None
      /\ e2e_latencies (fst r) = [((100 - 99) * 1000)%Q]).
Proof.
  repeat split; try reflexivity. vm_compute. discriminate.
Qed.

(** * Further properties of the queue discipline *)

Section RunFacts.

Implicit Types (q : Queue) (item : Item) (st : ClientState) (a : Args)
  (c : Queue * ClientState) (ops : list op).

Lemma run_cons a o ops c : run a (o :: ops) c = run a ops (step a c o).
Proof. reflexivity. Qed.

(** What one enqueue does to the items and to the counter, on any queue. *)
Lemma enqueue_effect q item st t1 t2 :
  let r := enqueue q item st t1 t2 in
  (full q = false
   /\ items (queue_after r) = items q ++ [item]
   /\ drops_total (state_after r) = drops_total st
   /\ result_of r = Returns false)
  \/ (exists x rest,
        full q = true /\ items q = x :: rest
        /\ ((items (queue_after r) = rest ++ [item]
             /\ drops_total (state_after r) = drops_total st + 1
             /\ result_of r = Returns true)
            \/ (items (queue_after r) = rest
                /\ drops_total (state_after r) = drops_total st
                /\ result_of r = Raises QueueFull
                /\ maxsize q < qsize q))).
Proof.
  intros r. subst r. destruct (full q) eqn:Hf.
  - right. destruct (enqueue_full_cases q item st t1 t2 Hf) as (x & rest & Hit & Heq).
    exists x, rest. split; [reflexivity | split; [exact Hit |]].
    rewrite Heq. destruct (full (mkQueue (maxsize q) rest)) eqn:Hf'.
    + right. cbn. repeat split. apply full_spec in Hf'. unfold qsize in *.
      rewrite Hit. cbn in *. lia.
    + left. cbn. repeat split.
  - left. rewrite enqueue_not_full by assumption. cbn.
    repeat split. destruct (queue_full_since st); reflexivity.
Qed.

Lemma relay_get_cases q :
  (items q = [] /\ relay_get q = q /\ snd (Queue_get_nowait q) = None)
  \/ (exists x rest,
        items q = x :: rest
        /\ relay_get q = mkQueue (maxsize q) rest
        /\ snd (Queue_get_nowait q) = Some x).
Proof.
  unfold relay_get, Queue_get_nowait. destruct (items q) as [| x rest] eqn:E.
  - left. repeat split.
  - right. exists x, rest. repeat split.
Qed.

Lemma check_drops_total a st now :
  drops_total (fst (should_disconnect_client a st now)) = drops_total st.
Proof. rewrite should_disconnect_state. reflexivity. Qed.

Lemma run_order a ops : forall c,
  (taken a ops c ++ items (fst (run a ops c)))
    `sublist_of` (items (fst c) ++ enqueued ops).
Proof.
  induction ops as [| o ops IH]; intros c.
  - cbn. rewrite app_nil_r. reflexivity.
  - rewrite run_cons. specialize (IH (step a c o)).
    destruct o as [item t1 t2 | now |].
    + change (enqueued (Op_enqueue item t1 t2 :: ops))
        with (item :: enqueued ops).
      change (taken a (Op_enqueue item t1 t2 :: ops) c)
        with (taken a ops (step a c (Op_enqueue item t1 t2))).
      assert (Hs : items (fst (step a c (Op_enqueue item t1 t2)))
                   = items (queue_after (enqueue (fst c) item (snd c) t1 t2)))
        by reflexivity.
      rewrite Hs in IH.
      destruct (enqueue_effect (fst c) item (snd c) t1 t2)
        as [(_ & Hit & _) | (x & rest & _ & Hq & [(Hit & _) | (Hit & _)])];
        cbv zeta in Hit; rewrite Hit in IH.
      * rewrite <- app_assoc in IH. exact IH.
      * rewrite Hq. cbn [app]. apply sublist_cons.
        rewrite <- app_assoc in IH. exact IH.
      * rewrite Hq. cbn [app]. apply sublist_cons.
        etransitivity; [exact IH |].
        apply sublist_app; [reflexivity | apply sublist_cons; reflexivity].
    + exact IH.
    + change (enqueued (Op_relay_get :: ops)) with (enqueued ops).
      change (taken a (Op_relay_get :: ops) c)
        with (match snd (Queue_get_nowait (fst c)) with
              | Some x => [x]
              | None => []
              end ++ taken a ops (step a c Op_relay_get)).
      assert (Hs : items (fst (step a c Op_relay_get))
                   = items (relay_get (fst c))) by reflexivity.
      rewrite Hs in IH.
      destruct (relay_get_cases (fst c))
        as [(Hq & Hg & Ht) | (x & rest & Hq & Hg & Ht)];
        rewrite Ht; rewrite Hg in IH; rewrite Hq.
      * rewrite Hq in IH. exact IH.
      * cbn [app items] in *. apply sublist_skip. exact IH.
Qed.

Lemma run_drops_total a ops : forall c,
  drops_total (snd (run a ops c))
  = drops_total (snd c) + Z.of_nat (length (drop_times a ops c)).
Proof.
  induction ops as [| o ops IH]; intros c.
  - cbn. lia.
  - rewrite run_cons, IH. cbn [drop_times]. rewrite length_app.
    destruct o as [item t1 t2 | now |]; cbn [step snd].
    + destruct (enqueue_effect (fst c) item (snd c) t1 t2)
        as [(_ & _ & Hd & Hr) | (x & rest & _ & _ & [(_ & Hd & Hr) | (_ & Hd & Hr & _)])];
        cbv zeta in Hd, Hr; rewrite Hd, Hr; cbn; lia.
    + rewrite check_drops_total. cbn. lia.
    + cbn. lia.
Qed.

End RunFacts.

(** X1. Whatever the broadcaster, the health check and the relay do, the
    items the relay has taken followed by the items still queued are, in
    order, among the items that were queued at the start followed by the
    items enqueued: nothing is reordered, duplicated or invented. *)
Theorem run_preserves_order (a : Args) (ops : list op) (c : Queue * ClientState) :
  (taken a ops c ++ items (fst (run a ops c)))
    `sublist_of` (items (fst c) ++ enqueued ops).
Proof. apply run_order. Qed.

(** X2. [drops_total] counts exactly the enqueues that returned "dropped":
    after any run it has grown by their number. *)
Theorem drops_total_counts_dropped_results (a : Args) (ops : list op)
    (c : Queue * ClientState) :
  drops_total (snd (run a ops c))
  = drops_total (snd c) + Z.of_nat (length (drop_times a ops c)).
Proof. apply run_drops_total. Qed.

Section RunAccounting.

Implicit Types (q : Queue) (item : Item) (st : ClientState) (a : Args)
  (c : Queue * ClientState) (ops : list op).

Lemma qsize_items q : qsize q = Z.of_nat (length (items q)).
Proof. reflexivity. Qed.

(** One step on a queue within its invariant: what came in is what was
    taken, what stays, and what was counted as dropped. *)
Lemma step_accounting a c o :
  queue_ok (fst c) ->
  qsize (fst c) + Z.of_nat (length (enqueued [o])) + drops_total (snd c)
  = Z.of_nat (length (taken a [o] c)) + qsize (fst (step a c o))
    + drops_total (snd (step a c o)).
Proof.
  intros Hok. destruct o as [item t1 t2 | now |]; cbn [enqueued flat_map taken app].
  - cbn [step fst snd]. destruct (full (fst c)) eqn:Hf.
    + rewrite enqueue_full by assumption. cbn [queue_after state_after fst snd].
      destruct (full_get_nowait _ Hf) as (x & rest & Hit & _).
      rewrite !qsize_items. cbn [items drops_total]. rewrite Hit. cbn [tl].
      rewrite length_app. cbn. lia.
    + rewrite enqueue_not_full by assumption.
      cbn [queue_after state_after fst snd]. rewrite qsize_app.
      destruct (queue_full_since (snd c)); cbn; lia.
  - cbn [step fst snd]. rewrite check_drops_total. cbn. lia.
  - cbn [step fst snd].
    destruct (relay_get_cases (fst c))
      as [(Hq & Hg & Ht) | (x & rest & Hq & Hg & Ht)]; rewrite Ht, Hg.
    + cbn. lia.
    + rewrite !qsize_items, Hq. cbn. lia.
Qed.

Lemma enqueued_cons o ops : enqueued (o :: ops) = enqueued [o] ++ enqueued ops.
Proof. unfold enqueued. cbn. rewrite app_nil_r. reflexivity. Qed.

Lemma taken_cons a o ops c :
  taken a (o :: ops) c = taken a [o] c ++ taken a ops (step a c o).
Proof. cbn. rewrite app_nil_r. reflexivity. Qed.

Lemma run_accounting a ops : forall c,
  queue_ok (fst c) ->
  qsize (fst c) + Z.of_nat (length (enqueued ops)) + drops_total (snd c)
  = Z.of_nat (length (taken a ops c)) + qsize (fst (run a ops c))
    + drops_total (snd (run a ops c)).
Proof.
  induction ops as [| o ops IH]; intros c Hok.
  - cbn. lia.
  - rewrite run_cons, enqueued_cons, taken_cons, !length_app.
    pose proof (step_accounting a c o Hok) as Hstep.
    pose proof (IH (step a c o) (step_queue_ok a c o Hok)) as Hrest.
    lia.
Qed.

(** On a queue that is not bounded, every step keeps everything. *)
Lemma run_unbounded a ops : forall c,
  maxsize (fst c) <= 0 ->
  drop_times a ops c = []
  /\ taken a ops c ++ items (fst (run a ops c)) = items (fst c) ++ enqueued ops.
Proof.
  induction ops as [| o ops IH]; intros c Hm.
  - cbn. rewrite app_nil_r. split; reflexivity.
  - assert (Hm' : maxsize (fst (step a c o)) <= 0) by (rewrite step_maxsize; exact Hm).
    destruct (IH _ Hm') as [IHd IHt].
    rewrite run_cons, enqueued_cons, taken_cons. cbn [drop_times]. rewrite IHd.
    rewrite <- app_assoc, IHt.
    assert (Hnf : full (fst c) = false) by (apply not_full_spec; left; exact Hm).
    destruct o as [item t1 t2 | now |]; cbn [step fst snd taken enqueued flat_map app].
    + rewrite enqueue_not_full by assumption.
      cbn [queue_after result_of fst snd items]. rewrite <- app_assoc.
      split; reflexivity.
    + split; reflexivity.
    + destruct (relay_get_cases (fst c))
        as [(Hq & Hg & Ht) | (x & rest & Hq & Hg & Ht)]; rewrite Ht, Hg, ?Hq;
        cbn; split; reflexivity.
Qed.

End RunAccounting.

(** X3 (drop accounting). On a queue within its size invariant, after any
    run: the items queued at the start plus the items enqueued are the items
    the relay took, plus the items still queued, plus the growth of
    [drops_total]. *)
Theorem drop_accounting (a : Args) (ops : list op) (c : Queue * ClientState) :
  queue_ok (fst c) ->
  qsize (fst c) + Z.of_nat (length (enqueued ops))
  = Z.of_nat (length (taken a ops c)) + qsize (fst (run a ops c))
    + (drops_total (snd (run a ops c)) - drops_total (snd c)).
Proof.
  intros Hok. pose proof (run_accounting a ops c Hok). lia.
Qed.

Lemma drop_accounting_witness :
  let a := mkArgs queue_mode 2 50 5 in
  let c := (new_Queue 2, new_ClientState) in
  let ops := [Op_enqueue "a" 1 1; Op_enqueue "b" 2 2; Op_enqueue "c" 3 3;
              Op_relay_get; Op_enqueue "d" 4 4; Op_enqueue "e" 5 5] in
  queue_ok (fst c)
  /\ taken a ops c = ["b"%string]
  /\ items (fst (run a ops c)) = ["d"; "e"]%string
  /\ 0 + 5 = 1 + 2 + (drops_total (snd (run a ops c)) - 0).
Proof.
  assert (Hok : queue_ok (new_Queue 2)) by apply queue_ok_new.
  split; [exact Hok |]. split; [reflexivity |]. split; [reflexivity |].
  exact (drop_accounting (mkArgs queue_mode 2 50 5)
           [Op_enqueue "a" 1 1; Op_enqueue "b" 2 2; Op_enqueue "c" 3 3;
            Op_relay_get; Op_enqueue "d" 4 4; Op_enqueue "e" 5 5]
           (new_Queue 2, new_ClientState) Hok).
Defined.

(** X4. On a queue within its size invariant an enqueue never raises, and
    the item it was given is afterwards the last of the queue: what is
    sacrificed is the oldest item, never the newest. *)
Theorem enqueue_keeps_newest (q : Queue) (item : Item) (st : ClientState)
    (t1 t2 : Time) :
  queue_ok q ->
  let r := enqueue q item st t1 t2 in
  (exists dropped : bool, result_of r = Returns dropped)
  /\ last (items (queue_after r)) = Some item
  /\ (0 < maxsize q -> qsize (queue_after r) = Z.min (qsize q + 1) (maxsize q)).
Proof.
  intros Hok r. subst r. destruct (full q) eqn:Hf.
  - rewrite enqueue_full by assumption. cbn [result_of queue_after fst snd items].
    split; [eexists; reflexivity |]. split; [apply last_snoc |].
    intros _. apply full_spec in Hf. specialize (Hok (proj1 Hf)).
    destruct (items q) as [| x rest] eqn:Hit; unfold qsize in *; cbn [items tl];
      rewrite Hit in *; cbn in *; [lia |]. rewrite length_app. cbn. lia.
  - rewrite enqueue_not_full by assumption. cbn [result_of queue_after fst snd items].
    split; [eexists; reflexivity |]. split; [apply last_snoc |].
    intros Hpos. rewrite qsize_app. apply not_full_spec in Hf. lia.
Qed.

Lemma enqueue_keeps_newest_witness :
  let q := mkQueue 2 ["a"; "b"]%string in
  let r := enqueue q "c" new_ClientState 3 3 in
  queue_ok q
  /\ last (items (queue_after r)) = Some "c"%string
  /\ qsize (queue_after r) = 2.
Proof.
  assert (Hok : queue_ok (mkQueue 2 ["a"; "b"]%string)).
  { unfold queue_ok, qsize. cbn. lia. }
  pose proof (enqueue_keeps_newest (mkQueue 2 ["a"; "b"]%string) "c"%string
                new_ClientState 3%Q 3%Q Hok) as H.
  cbv zeta in H. destruct H as (_ & Hlast & Hsize).
  split; [exact Hok | split; [exact Hlast |]].
  rewrite Hsize; [reflexivity | reflexivity].
Defined.

(** X5. A queue created with [maxsize <= 0] is unbounded: no run ever drops
    from it.  No enqueue returns "dropped", [drops_total] does not move, and
    what the relay took followed by what is queued is exactly what was
    queued at the start followed by what was enqueued. *)
Theorem unbounded_queue_never_drops (a : Args) (ops : list op)
    (c : Queue * ClientState) :
  maxsize (fst c) <= 0 ->
  drop_times a ops c = []
  /\ drops_total (snd (run a ops c)) = drops_total (snd c)
  /\ taken a ops c ++ items (fst (run a ops c)) = items (fst c) ++ enqueued ops.
Proof.
  intros Hm. destruct (run_unbounded a ops c Hm) as [Hd Ht].
  split; [exact Hd | split; [| exact Ht]].
  rewrite run_drops_total, Hd. cbn. lia.
Qed.

Lemma unbounded_queue_never_drops_witness :
  let a := mkArgs queue_mode 0 50 5 in
  let c := (new_Queue 0, new_ClientState) in
  let ops := [Op_enqueue "a" 1 1; Op_enqueue "b" 2 2; Op_relay_get;
              Op_enqueue "c" 3 3] in
  maxsize (fst c) <= 0
  /\ drops_total (snd (run a ops c)) = 0
  /\ taken a ops c ++ items (fst (run a ops c)) = ["a"; "b"; "c"]%string.
Proof.
  assert (Hm : maxsize (fst (new_Queue 0, new_ClientState)) <= 0) by (cbn; lia).
  destruct (unbounded_queue_never_drops (mkArgs queue_mode 0 50 5)
              [Op_enqueue "a" 1 1; Op_enqueue "b" 2 2; Op_relay_get;
               Op_enqueue "c" 3 3]
              (new_Queue 0, new_ClientState) Hm) as (_ & Hd & Ht).
  split; [exact Hm | split; [exact Hd | exact Ht]].
Defined.

Section FullRun.

Implicit Types (q : Queue) (item : Item) (st : ClientState) (a : Args)
  (c : Queue * ClientState) (ops : list op).

Lemma check_queue_full_since a st now :
  queue_full_since (fst (should_disconnect_client a st now)) = queue_full_since st.
Proof. rewrite should_disconnect_state. reflexivity. Qed.

Lemma check_window a st now :
  last_drop_window (fst (should_disconnect_client a st now))
  = prune_window now (last_drop_window st).
Proof. rewrite should_disconnect_state. reflexivity. Qed.

(** While the relay takes nothing, a full queue stays full and a set
    [queue_full_since] keeps its reading. *)
Lemma run_stays_full a ops : forall c t,
  relay_idle ops ->
  queue_ok (fst c) -> full (fst c) = true ->
  queue_full_since (snd c) = Some t ->
  full (fst (run a ops c)) = true
  /\ queue_full_since (snd (run a ops c)) = Some t.
Proof.
  induction ops as [| o ops IH]; intros c t Hidle Hok Hf Hs.
  - split; assumption.
  - rewrite run_cons. apply Forall_cons in Hidle. destruct Hidle as [Ho Hidle].
    apply IH; try assumption.
    + apply step_queue_ok, Hok.
    + destruct o as [item t1 t2 | now |]; cbn [step fst]; [| exact Hf | congruence].
      rewrite enqueue_full by assumption. cbn [queue_after fst].
      apply full_spec in Hf. apply full_spec. cbn [maxsize].
      split; [lia |]. unfold qsize in *. cbn [items].
      destruct (items (fst c)) as [| x rest]; cbn in *; [lia |].
      rewrite length_app. cbn. lia.
    + destruct o as [item t1 t2 | now |]; cbn [step snd]; [| | congruence].
      * rewrite enqueue_full by assumption.
        cbn [state_after fst snd queue_full_since]. rewrite Hs. reflexivity.
      * rewrite check_queue_full_since. exact Hs.
Qed.

Lemma run_full_since_first a item t1 t2 ops c :
  relay_idle ops ->
  queue_ok (fst c) -> full (fst c) = true ->
  queue_full_since (snd c) = None ->
  queue_full_since (snd (run a (Op_enqueue item t1 t2 :: ops) c)) = Some t2.
Proof.
  intros Hidle Hok Hf Hs. rewrite run_cons.
  apply (run_stays_full a ops _ t2 Hidle).
  - apply step_queue_ok, Hok.
  - cbn [step fst]. rewrite enqueue_full by assumption. cbn [queue_after fst].
    apply full_spec in Hf. apply full_spec. cbn [maxsize].
    split; [lia |]. unfold qsize in *. cbn [items].
    destruct (items (fst c)) as [| x rest]; cbn in *; [lia |].
    rewrite length_app. cbn. lia.
  - cbn [step snd]. rewrite enqueue_full by assumption.
    cbn [state_after fst snd queue_full_since]. rewrite Hs. reflexivity.
Qed.

Lemma deque_append_length {A : Type} (n : nat) (d : list A) (x : A) :
  (0 < n)%nat -> (length d <= n)%nat ->
  length (deque_append n d x) = Nat.min n (S (length d)).
Proof.
  intros Hn Hlen. unfold deque_append.
  destruct (n <=? length d)%nat eqn:E.
  - apply Nat.leb_le in E. rewrite length_skipn, length_app. cbn. lia.
  - apply Nat.leb_gt in E. rewrite length_app. cbn. lia.
Qed.

Lemma run_window_length a ops : forall c,
  (length (last_drop_window (snd c)) <= window_maxlen)%nat ->
  (length (last_drop_window (snd (run a ops c))) <= window_maxlen)%nat.
Proof.
  induction ops as [| o ops IH]; intros c Hlen; [exact Hlen |].
  rewrite run_cons. apply IH.
  destruct o as [item t1 t2 | now |]; cbn [step snd].
  - destruct (enqueue_window (fst c) item (snd c) t1 t2) as [[_ Hw] | [_ Hw]];
      cbv zeta in Hw; rewrite Hw; [| exact Hlen].
    rewrite deque_append_length by (pose proof window_maxlen_pos; lia). lia.
  - rewrite check_window. pose proof (prune_window_length now (last_drop_window (snd c))).
    lia.
  - exact Hlen.
Qed.

End FullRun.

(** X6. [queue_full_since] holds the reading of the first drop of a run of
    drops: from a full queue whose [queue_full_since] is null, the first
    enqueue sets it to its second clock reading, and further enqueues and
    health checks leave that reading in place as long as the relay takes
    nothing. *)
Theorem full_since_keeps_first_reading (a : Args) (item : Item) (t1 t2 : Time)
    (ops : list op) (c : Queue * ClientState) :
  relay_idle ops ->
  queue_ok (fst c) -> full (fst c) = true ->
  queue_full_since (snd c) = None ->
  queue_full_since (snd (run a (Op_enqueue item t1 t2 :: ops) c)) = Some t2.
Proof. apply run_full_since_first. Qed.

Lemma full_since_keeps_first_reading_witness :
  let a := mkArgs queue_mode 1 50 5 in
  let c := (mkQueue 1 ["a"%string], new_ClientState) in
  let ops := [Op_check 2; Op_enqueue "c" 3 4; Op_check 4; Op_enqueue "d" 5 6] in
  relay_idle ops
  /\ queue_ok (fst c) /\ full (fst c) = true
  /\ queue_full_since (snd (run a (Op_enqueue "b" 1 2 :: ops) c)) = Some 2%Q.
Proof.
  assert (Hidle : relay_idle [Op_check 2; Op_enqueue "c" 3 4; Op_check 4;
                              Op_enqueue "d" 5 6]).
  { repeat constructor; discriminate. }
  assert (Hok : queue_ok (mkQueue 1 ["a"%string])).
  { unfold queue_ok, qsize. cbn. lia. }
  split; [exact Hidle | split; [exact Hok | split; [reflexivity |]]].
  apply (full_since_keeps_first_reading (mkArgs queue_mode 1 50 5) "b"%string
           1%Q 2%Q _ (mkQueue 1 ["a"%string], new_ClientState) Hidle Hok);
    reflexivity.
Defined.

(** X7 (scenario S5). A client that stops reading is evicted by the
    full-queue rule: if its queue is full when a first drop happens at a
    non-zero reading [t2], and the relay takes nothing afterwards, every
    health check later than [t2 + full_timeout] answers "evict", whatever
    [drop_limit] is. *)
Theorem stalled_client_is_evicted (a : Args) (item : Item) (t1 t2 now : Time)
    (ops : list op) (c : Queue * ClientState) :
  relay_idle ops ->
  queue_ok (fst c) -> full (fst c) = true ->
  queue_full_since (snd c) = None ->
  ~ (t2 == 0)%Q ->
  (full_timeout a < now - t2)%Q ->
  snd (should_disconnect_client a
         (snd (run a (Op_enqueue item t1 t2 :: ops) c)) now) = true.
Proof.
  intros Hidle Hok Hf Hs Hnz Hlate. apply should_disconnect_iff. right.
  exists t2. split; [| split; assumption].
  apply run_full_since_first; assumption.
Qed.

Lemma stalled_client_is_evicted_witness :
  let a := mkArgs queue_mode 1 1000000 1 in
  let c := (mkQueue 1 ["a"%string], new_ClientState) in
  let ops := [Op_check 2; Op_enqueue "c" 3 3; Op_check 3] in
  relay_idle ops
  /\ queue_ok (fst c) /\ full (fst c) = true
  /\ snd (should_disconnect_client a
            (snd (run a (Op_enqueue "b" 2 2 :: ops) c)) 4) = true.
Proof.
  assert (Hidle : relay_idle [Op_check 2; Op_enqueue "c" 3 3; Op_check 3]).
  { repeat constructor; discriminate. }
  assert (Hok : queue_ok (mkQueue 1 ["a"%string])).
  { unfold queue_ok, qsize. cbn. lia. }
  split; [exact Hidle | split; [exact Hok | split; [reflexivity |]]].
  apply (stalled_client_is_evicted (mkArgs queue_mode 1 1000000 1) "b"%string
           2%Q 2%Q 4%Q _ (mkQueue 1 ["a"%string], new_ClientState) Hidle Hok).
  - reflexivity.
  - reflexivity.
  - intros H. discriminate H.
  - reflexivity.
Defined.

(** X8. The drop window never holds more than 100 timestamps, so with
    [drop_limit >= 100] the drop-limit rule cannot fire: a verdict "evict"
    then always comes from the full-queue rule. *)
Theorem large_drop_limit_never_fires (a : Args) (ops : list op)
    (c : Queue * ClientState) (now : Time) :
  (length (last_drop_window (snd c)) <= window_maxlen)%nat ->
  Z.of_nat window_maxlen <= drop_limit a ->
  (length (last_drop_window (snd (run a ops c))) <= window_maxlen)%nat
  /\ (snd (should_disconnect_client a (snd (run a ops c)) now) = true ->
      exists since,
        queue_full_since (snd (run a ops c)) = Some since
        /\ (full_timeout a < now - since)%Q).
Proof.
  intros Hlen Hlim. pose proof (run_window_length a ops c Hlen) as Hlen'.
  split; [exact Hlen' |]. intros Hv. apply should_disconnect_iff in Hv.
  destruct Hv as [Hv | (since & Hs & _ & Ht)].
  - pose proof (prune_window_length now (last_drop_window (snd (run a ops c)))).
    lia.
  - exists since. split; assumption.
Qed.

Lemma large_drop_limit_never_fires_witness :
  let a := mkArgs queue_mode 1 100 5 in
  let c := (new_Queue 1, new_ClientState) in
  let ops := concat (repeat [Op_enqueue "m" 1 1; Op_check 1] 150) in
  (length (last_drop_window (snd c)) <= window_maxlen)%nat
  /\ Z.of_nat window_maxlen <= drop_limit a
  /\ drops_total (snd (run a ops c)) = 149
  /\ (length (last_drop_window (snd (run a ops c))) <= window_maxlen)%nat.
Proof.
  assert (H0 : (length (last_drop_window (snd (new_Queue 1, new_ClientState)))
                <= window_maxlen)%nat) by (cbn; lia).
  assert (H1 : Z.of_nat window_maxlen <= drop_limit (mkArgs queue_mode 1 100 5))
    by (unfold window_maxlen; cbn; lia).
  split; [exact H0 | split; [exact H1 | split; [vm_compute; reflexivity |]]].
  exact (proj1 (large_drop_limit_never_fires (mkArgs queue_mode 1 100 5)
                  (concat (repeat [Op_enqueue "m" 1 1; Op_check 1] 150))
                  (new_Queue 1, new_ClientState) 1%Q H0 H1)).
Defined.

Section CheckFacts.

Implicit Types (a : Args) (st : ClientState) (now : Time) (w : list Time).

Lemma prune_window_later now1 now2 w :
  (now1 <= now2)%Q ->
  prune_window now2 (prune_window now1 w) = prune_window now2 w.
Proof.
  intros Hle. induction w as [| t w IH]; [reflexivity |].
  cbn [prune_window]. destruct (Qltb t (now1 - 10)) eqn:E1.
  - apply Qltb_lt in E1.
    assert (E2 : Qltb t (now2 - 10) = true) by (apply Qltb_lt; lra).
    rewrite E2. exact IH.
  - reflexivity.
Qed.

Lemma prune_window_sorted now w :
  StronglySorted Qle w -> prune_window now w = drops_within_window now w.
Proof.
  intros Hs. induction Hs as [| t w Hs IH Hall]; [reflexivity |].
  unfold drops_within_window in *. cbn [prune_window List.filter].
  unfold within_window at 1. destruct (Qltb t (now - 10)) eqn:E; cbn [negb].
  - exact IH.
  - f_equal. symmetry. apply filter_all.
    eapply Forall_impl; [exact Hall |]. cbn. intros d Hd.
    unfold within_window. apply negb_true_iff, Qltb_ge.
    apply Qltb_ge in E. lra.
Qed.

End CheckFacts.

(** X9. Health checks compose: a check at [now1] followed by a check at a
    later [now2] leaves the state, and gives the verdict, of a single check
    at [now2]. *)
Theorem health_checks_compose (a : Args) (st : ClientState) (now1 now2 : Time) :
  (now1 <= now2)%Q ->
  should_disconnect_client a (fst (should_disconnect_client a st now1)) now2
  = should_disconnect_client a st now2.
Proof.
  intros Hle. rewrite (should_disconnect_state a st now1).
  unfold should_disconnect_client.
  cbn [set_last_drop_window last_drop_window queue_full_since queue drops_total
       send_times relay_task].
  rewrite prune_window_later by exact Hle. reflexivity.
Qed.

Lemma health_checks_compose_witness :
  let a := mkArgs queue_mode 1 1 5 in
  let st := mkClientState None 3 [] [1%Q; 8%Q; 15%Q] None None in
  (12 <= 20)%Q
  /\ should_disconnect_client a (fst (should_disconnect_client a st 12)) 20
     = should_disconnect_client a st 20.
Proof.
  assert (H : (12 <= 20)%Q) by (apply Qle_bool_iff; reflexivity).
  split; [exact H |].
  exact (health_checks_compose (mkArgs queue_mode 1 1 5)
           (mkClientState None 3 [] [1%Q; 8%Q; 15%Q] None None) 12%Q 20%Q H).
Defined.

(** X10. On a window whose timestamps are in non-decreasing order the loop
    of the health check removes every entry older than [now - 10] and keeps
    every other one: the count compared with [drop_limit] is the number of
    stored drops of the last 10 seconds. *)
Theorem prune_keeps_exactly_recent (a : Args) (st : ClientState) (now : Time) :
  StronglySorted Qle (last_drop_window st) ->
  last_drop_window (fst (should_disconnect_client a st now))
  = drops_within_window now (last_drop_window st)
  /\ Forall (fun t => (now - 10 <= t)%Q)
       (last_drop_window (fst (should_disconnect_client a st now))).
Proof.
  intros Hs. rewrite check_window, prune_window_sorted by exact Hs.
  split; [reflexivity |]. unfold drops_within_window.
  apply Forall_forall. intros t Ht. apply list_elem_of_In, List.filter_In in Ht.
  destruct Ht as [_ Ht]. unfold within_window in Ht.
  apply negb_true_iff, Qltb_ge in Ht. exact Ht.
Qed.

Lemma prune_keeps_exactly_recent_witness :
  let a := mkArgs queue_mode 1 1 5 in
  let st := mkClientState None 3 [] [1%Q; 8%Q; 15%Q] None None in
  StronglySorted Qle (last_drop_window st)
  /\ last_drop_window (fst (should_disconnect_client a st 18)) = [8%Q; 15%Q].
Proof.
  assert (Hs : StronglySorted Qle [1%Q; 8%Q; 15%Q]).
  { repeat constructor; apply Qle_bool_iff; reflexivity. }
  split; [exact Hs |].
  exact (proj1 (prune_keeps_exactly_recent (mkArgs queue_mode 1 1 5)
                  (mkClientState None 3 [] [1%Q; 8%Q; 15%Q] None None) 18%Q Hs)).
Defined.

(** * Further properties of the registry and of the inbound handler *)

Section ReadLoop.

Implicit Types (srv : BroadcastServer) (now : Time)
  (inbound : list (outcome json * Time)).

(** The handler touches the latency ring only, and adds at most one sample. *)
Lemma on_message_frame srv decoded now :
  let r := on_message srv decoded now in
  args (fst r) = args srv /\ clients (fst r) = clients srv
  /\ seq (fst r) = seq srv /\ total_disconnects (fst r) = total_disconnects srv
  /\ relays (fst r) = relays srv /\ log (fst r) = log srv
  /\ (e2e_latencies (fst r) = e2e_latencies srv
      \/ exists sample,
           e2e_latencies (fst r)
           = deque_append latencies_maxlen (e2e_latencies srv) sample).
Proof.
  unfold on_message.
  destruct (bind decoded _) as [[sample |] | e]; cbn.
  - repeat split. right. exists sample. reflexivity.
  - repeat split. left. reflexivity.
  - destruct (caught e); cbn; repeat split; left; reflexivity.
Qed.

Lemma deque_append_grows {A : Type} (n : nat) (d : list A) (x : A) :
  (length (deque_append n d x) <= S (length d))%nat.
Proof.
  unfold deque_append. destruct (n <=? length d)%nat.
  - rewrite length_skipn, length_app. cbn. lia.
  - rewrite length_app. cbn. lia.
Qed.

Lemma latencies_maxlen_pos : (0 < latencies_maxlen)%nat.
Proof. unfold latencies_maxlen. lia. Qed.

Lemma read_loop_frame inbound : forall srv,
  let r := read_loop srv inbound in
  args (fst r) = args srv /\ clients (fst r) = clients srv
  /\ seq (fst r) = seq srv /\ total_disconnects (fst r) = total_disconnects srv
  /\ relays (fst r) = relays srv /\ log (fst r) = log srv
  /\ ((length (e2e_latencies srv) <= latencies_maxlen)%nat ->
      (length (e2e_latencies (fst r)) <= latencies_maxlen)%nat)
  /\ (length (e2e_latencies (fst r))
      <= length (e2e_latencies srv) + length inbound)%nat.
Proof.
  induction inbound as [| [decoded now] inbound IH]; intros srv; cbv zeta.
  - cbn. repeat split; lia.
  - cbn [read_loop].
    pose proof (on_message_frame srv decoded now) as Hm. cbv zeta in Hm.
    destruct (on_message srv decoded now) as [srv1 [u | e]] eqn:E;
      cbn [fst] in Hm; destruct Hm as (Ha & Hc & Hs & Ht & Hr & Hl & He).
    + specialize (IH srv1). cbv zeta in IH.
      destruct IH as (Ia & Ic & Is & It & Ir & Il & Ib & In).
      repeat split; try congruence.
      * intros Hb. apply Ib. destruct He as [He | [x He]]; rewrite He; [exact Hb |].
        rewrite deque_append_length by (pose proof latencies_maxlen_pos; lia). lia.
      * cbn [length]. destruct He as [He | [x He]]; rewrite He in In; [lia |].
        pose proof (deque_append_grows latencies_maxlen (e2e_latencies srv) x).
        lia.
    + cbn [fst].
      repeat split; try congruence.
      * intros Hb. destruct He as [He | [x He]]; rewrite He; [exact Hb |].
        rewrite deque_append_length by (pose proof latencies_maxlen_pos; lia). lia.
      * cbn [length]. destruct He as [He | [x He]]; rewrite He; [lia |].
        pose proof (deque_append_grows latencies_maxlen (e2e_latencies srv) x).
        lia.
Qed.

Lemma register_client_lookup srv websocket :
  is_Some (clients (register_client srv websocket) !! websocket).
Proof.
  unfold register_client. destruct (mode (args srv)); cbn;
    rewrite lookup_insert_eq; eexists; reflexivity.
Qed.

Lemma register_client_frame srv websocket :
  args (register_client srv websocket) = args srv
  /\ seq (register_client srv websocket) = seq srv
  /\ total_disconnects (register_client srv websocket) = total_disconnects srv
  /\ e2e_latencies (register_client srv websocket) = e2e_latencies srv
  /\ delete websocket (clients (register_client srv websocket))
     = delete websocket (clients srv).
Proof.
  unfold register_client. destruct (mode (args srv)); cbn;
    repeat split; apply delete_insert_eq.
Qed.

End ReadLoop.

(** X11. Admitting a client and unregistering it again leaves a registry
    without that handle and otherwise as before; the disconnect counter is
    one higher; the sequence counter and the latency ring are untouched.
    For a new connection, one whose handle names no relay yet, the relays
    running afterwards are the ones that ran before: the relay started at
    admission is the one cancelled. *)
Theorem register_then_unregister (srv : BroadcastServer) (websocket : Handle) :
  let srv2 := unregister_client (register_client srv websocket) websocket in
  clients srv2 = delete websocket (clients srv)
  /\ (forall other, other <> websocket ->
        clients srv2 !! other = clients srv !! other)
  /\ total_disconnects srv2 = total_disconnects srv + 1
  /\ seq srv2 = seq srv
  /\ e2e_latencies srv2 = e2e_latencies srv
  /\ (websocket ∉ relays srv -> relays srv2 = relays srv).
Proof.
  intros srv2. subst srv2.
  destruct (register_client_lookup srv websocket) as [state Hst].
  rewrite (unregister_present _ _ _ Hst).
  destruct (register_client_frame srv websocket) as (Ha & Hs & Ht & He & Hd).
  cbn [clients total_disconnects seq e2e_latencies relays].
  rewrite Hd, Ht, Hs, He. repeat split.
  - intros other Hne. apply lookup_delete_ne. congruence.
  - intros Hnew. unfold register_client in Hst |- *.
    destruct (mode (args srv)); cbn in Hst |- *;
      rewrite lookup_insert_eq in Hst; simplify_eq; cbn; [reflexivity |].
    apply set_eq. intros x.
    rewrite elem_of_difference, elem_of_union, elem_of_singleton.
    split; [tauto |]. intros Hx. split; [right; exact Hx |].
    intros ->. contradiction.
Qed.

Lemma register_then_unregister_witness :
  let srv := register_client (new_BroadcastServer (mkArgs queue_mode 2 50 5)) 3%nat in
  let srv2 := unregister_client (register_client srv 7%nat) 7%nat in
  (7%nat ∉ relays srv)
  /\ clients srv2 = clients srv
  /\ total_disconnects srv2 = 1
  /\ relays srv2 = relays srv.
Proof.
  pose proof (register_then_unregister
                (register_client
                   (new_BroadcastServer (mkArgs queue_mode 2 50 5)) 3%nat)
                7%nat) as H.
  cbv zeta in H. destruct H as (Hc & _ & Ht & _ & _ & Hr).
  assert (Hnew : 7%nat ∉ relays
                   (register_client
                      (new_BroadcastServer (mkArgs queue_mode 2 50 5)) 3%nat)).
  { cbn. rewrite elem_of_union, elem_of_singleton, elem_of_empty. lia. }
  split; [exact Hnew | split; [| split; [exact Ht | exact (Hr Hnew)]]].
  rewrite Hc. apply delete_id. cbn. rewrite lookup_insert_ne by lia.
  apply lookup_empty.
Defined.

(** X12. Whatever a client sends, and whether or not the handler raises,
    [handle_client] leaves the client unregistered: the registry is the one
    before admission without the handle, and the disconnect counter has
    grown by exactly one. *)
Theorem handle_client_always_unregisters (srv : BroadcastServer)
    (websocket : Handle) (inbound : list (outcome json * Time)) :
  let r := handle_client srv websocket inbound in
  clients (fst r) = delete websocket (clients srv)
  /\ total_disconnects (fst r) = total_disconnects srv + 1
  /\ seq (fst r) = seq srv
  /\ (mode (args srv) = queue_mode -> websocket ∉ relays (fst r)).
Proof.
  intros r. subst r. unfold handle_client.
  pose proof (read_loop_frame inbound (register_client srv websocket)) as Hf.
  cbv zeta in Hf.
  destruct (read_loop (register_client srv websocket) inbound) as [srv2 res].
  cbn [fst] in *. destruct Hf as (Ha & Hc & Hs & Ht & Hr & _).
  destruct (register_client_lookup srv websocket) as [state Hst].
  rewrite <- Hc in Hst. rewrite (unregister_present _ _ _ Hst).
  destruct (register_client_frame srv websocket) as (_ & Hs' & Ht' & _ & Hd).
  cbn [clients total_disconnects seq relays].
  rewrite Hc, Hd, Ht, Ht', Hs, Hs'. repeat split.
  intros Hmode. rewrite Hr. rewrite Hc in Hst. clear -Hst Hmode.
  unfold register_client in *. rewrite Hmode in *. cbn in *.
  rewrite lookup_insert_eq in Hst. simplify_eq. cbn.
  intros [_ Hn]%elem_of_difference. apply Hn, elem_of_singleton. reflexivity.
Qed.

Lemma handle_client_always_unregisters_witness :
  let srv := new_BroadcastServer (mkArgs queue_mode 2 50 5) in
  let inbound := [(Returns (JObject [("ack_ts"%string, JNumber 99)]), 100%Q);
                  (Returns JNull, 101%Q)] in
  let r := handle_client srv 7%nat inbound in
  mode (args srv) = queue_mode
  /\ snd r = Raises TypeError
  /\ clients (fst r) = ∅
  /\ total_disconnects (fst r) = 1
  /\ 7%nat ∉ relays (fst r).
Proof.
  pose proof (handle_client_always_unregisters
                (new_BroadcastServer (mkArgs queue_mode 2 50 5)) 7%nat
                [(Returns (JObject [("ack_ts"%string, JNumber 99)]), 100%Q);
                 (Returns JNull, 101%Q)]) as H.
  cbv zeta in H. destruct H as (Hc & Ht & _ & Hr).
  split; [reflexivity | split; [reflexivity |]].
  split; [rewrite Hc; apply delete_empty |].
  split; [exact Ht | apply Hr; reflexivity].
Defined.

(** X13. The read loop changes nothing of the server but the latency ring,
    which never grows past 1000 samples and gains at most one sample per
    inbound message. *)
Theorem read_loop_only_records_latencies (srv : BroadcastServer)
    (inbound : list (outcome json * Time)) :
  let r := read_loop srv inbound in
  clients (fst r) = clients srv
  /\ seq (fst r) = seq srv
  /\ total_disconnects (fst r) = total_disconnects srv
  /\ relays (fst r) = relays srv
  /\ ((length (e2e_latencies srv) <= latencies_maxlen)%nat ->
      (length (e2e_latencies (fst r)) <= latencies_maxlen)%nat)
  /\ (length (e2e_latencies (fst r))
      <= length (e2e_latencies srv) + length inbound)%nat.
Proof.
  intros r. subst r. pose proof (read_loop_frame inbound srv) as Hf.
  cbv zeta in Hf. destruct Hf as (_ & Hc & Hs & Ht & Hr & _ & Hb & Hn).
  repeat split; assumption.
Qed.

Lemma read_loop_only_records_latencies_witness :
  let srv := register_client (new_BroadcastServer (mkArgs queue_mode 2 50 5)) 7%nat in
  let inbound := [(Returns (JObject [("ack_ts"%string, JNumber 99)]), 100%Q);
                  (Raises JSONDecodeError, 101%Q);
                  (Returns (JObject [("ack_ts"%string, JNumber 100)]), 102%Q)] in
  let r := read_loop srv inbound in
  (length (e2e_latencies srv) <= latencies_maxlen)%nat
  /\ e2e_latencies (fst r) = [((100 - 99) * 1000)%Q; ((102 - 100) * 1000)%Q]
  /\ (length (e2e_latencies (fst r)) <= latencies_maxlen)%nat.
Proof.
  assert (H0 : (length (e2e_latencies
                          (register_client
                             (new_BroadcastServer (mkArgs queue_mode 2 50 5))
                             7%nat)) <= latencies_maxlen)%nat) by (cbn; lia).
  pose proof (read_loop_only_records_latencies
                (register_client
                   (new_BroadcastServer (mkArgs queue_mode 2 50 5)) 7%nat)
                [(Returns (JObject [("ack_ts"%string, JNumber 99)]), 100%Q);
                 (Raises JSONDecodeError, 101%Q);
                 (Returns (JObject [("ack_ts"%string, JNumber 100)]), 102%Q)])
    as H.
  cbv zeta in H. destruct H as (_ & _ & _ & _ & Hb & _).
  split; [exact H0 | split; [reflexivity | exact (Hb H0)]].
Defined.

(** X14. Which decoded values end a connection.  On a JSON value the handler
    either returns, or raises [TypeError] or [OverflowError] and leaves the
    server as it was.  It raises [TypeError] exactly on [null], booleans and
    numbers, on strings that contain "ack_ts", on arrays that hold the string
    "ack_ts", and on objects whose [ack_ts] is neither a number nor a
    boolean; it raises [OverflowError] exactly on objects whose [ack_ts] is
    an [int] too large for a float. *)
Theorem on_message_raises_iff (srv : BroadcastServer) (data : json) (now : Time) :
  let r := on_message srv (Returns data) now in
  (snd r = Returns tt
   \/ ((snd r = Raises TypeError \/ snd r = Raises OverflowError) /\ fst r = srv))
  /\ (snd r = Raises TypeError <->
      match data with
      | JNull | JBool _ | JNumber _ => True
      | JString s => is_substring "ack_ts" s = true
      | JArray elems => existsb (is_JString "ack_ts") elems = true
      | JObject members =>
          exists v, assoc "ack_ts" members = Some v
                    /\ py_rsub now v = Raises TypeError
      end)
  /\ (snd r = Raises OverflowError <->
      exists members x,
        data = JObject members
        /\ assoc "ack_ts" members = Some (JNumber x)
        /\ (float_overflow <= Qabs x)%Q).
Proof.
  intros r. subst r. unfold on_message.
  destruct data as [| b | x | s | elems | members];
    cbn [bind py_contains py_getitem caught fst snd].
  - split; [right; split; [left |]; reflexivity |].
    split; [split; [trivial | reflexivity] |].
    split; [discriminate | intros (m & x & H & _); discriminate].
  - split; [right; split; [left |]; reflexivity |].
    split; [split; [trivial | reflexivity] |].
    split; [discriminate | intros (m & x & H & _); discriminate].
  - split; [right; split; [left |]; reflexivity |].
    split; [split; [trivial | reflexivity] |].
    split; [discriminate | intros (m & x0 & H & _); discriminate].
  - destruct (is_substring "ack_ts" s); cbn [bind caught fst snd].
    + split; [right; split; [left |]; reflexivity |].
      split; [split; reflexivity |].
      split; [discriminate | intros (m & x & H & _); discriminate].
    + split; [left; reflexivity |]. split; [split; discriminate |].
      split; [discriminate | intros (m & x & H & _); discriminate].
  - destruct (existsb (is_JString "ack_ts") elems); cbn [bind caught fst snd].
    + split; [right; split; [left |]; reflexivity |].
      split; [split; reflexivity |].
      split; [discriminate | intros (m & x & H & _); discriminate].
    + split; [left; reflexivity |]. split; [split; discriminate |].
      split; [discriminate | intros (m & x & H & _); discriminate].
  - destruct (assoc "ack_ts" members) as [v |] eqn:Hv; cbn [bind caught fst snd].
    + pose proof (py_float_rsub_TypeError now v) as HT.
      pose proof (py_float_rsub_OverflowError now v) as HO.
      destruct (py_float_rsub now v) as [d | e] eqn:Hd; cbn [bind caught fst snd].
      * split; [left; reflexivity |]. split; [split; [discriminate |] |].
        -- intros (v' & Hv' & Hr). injection Hv' as <-.
           apply HT in Hr. discriminate.
        -- split; [discriminate |]. intros (m & x & Hm & Hx & Hle).
           injection Hm as <-. rewrite Hv in Hx. injection Hx as ->.
           assert (Hr : Returns d = Raises OverflowError)
             by (apply HO; exists x; split; [reflexivity | exact Hle]).
           discriminate.
      * assert (He : e = TypeError \/ e = OverflowError).
        { unfold py_float_rsub in Hd. destruct (int_too_large v).
          - right. congruence.
          - left. destruct v; cbn in Hd; congruence. }
        destruct He as [-> | ->]; cbn [caught fst snd].
        -- split; [right; split; [left |]; reflexivity |]. split.
           ++ split; [| reflexivity]. intros _. exists v.
              split; [reflexivity | apply HT; reflexivity].
           ++ split; [discriminate |]. intros (m & x & Hm & Hx & Hle).
              injection Hm as <-. rewrite Hv in Hx. injection Hx as ->.
              assert (Hr : Raises TypeError = Raises OverflowError :> outcome Q)
                by (apply HO; exists x; split; [reflexivity | exact Hle]).
              discriminate.
        -- split; [right; split; [right |]; reflexivity |]. split.
           ++ split; [discriminate |]. intros (v' & Hv' & Hr).
              injection Hv' as <-. apply HT in Hr. discriminate.
           ++ split; [| reflexivity]. intros _.
              destruct HO as [HO _]. destruct (HO eq_refl) as (x & -> & Hle).
              exists members, x. repeat split; assumption.
    + split; [left; reflexivity |]. split.
      * split; [discriminate |]. intros (v' & Hv' & _). discriminate.
      * split; [discriminate |]. intros (m & x & Hm & Hx & _).
        injection Hm as <-. congruence.
Qed.

(** * Properties of the broadcaster *)

Section Broadcast.

Implicit Types (srv : BroadcastServer) (a : Args) (message : Item)
  (clock : Handle -> Time * Time * Time) (order ds : list Handle)
  (m : gmap Handle ClientState).

Lemma queue_pass_spec a message clock order :
  forall acc : gmap Handle ClientState * list Handle,
  NoDup order ->
  let res := fold_left (queue_pass_step a message clock) order acc in
  (forall ws, ws ∉ order -> fst res !! ws = fst acc !! ws)
  /\ (forall ws, ws ∈ order ->
        fst res !! ws
        = (fun st => fst (queue_turn a message st (clock ws))) <$> (fst acc !! ws))
  /\ snd res = snd acc ++ List.filter (marked a message clock (fst acc)) order.
Proof.
  induction order as [| w order IH]; intros acc Hnd; cbv zeta.
  - cbn. split; [reflexivity |]. split; [| rewrite app_nil_r; reflexivity].
    intros ws Hin. apply elem_of_nil in Hin. contradiction.
  - apply NoDup_cons in Hnd. destruct Hnd as [Hw Hnd].
    cbn [fold_left]. specialize (IH (queue_pass_step a message clock acc w) Hnd).
    cbv zeta in IH. destruct IH as (IHout & IHin & IHd).
    assert (Hother : forall ws, ws <> w ->
              fst (queue_pass_step a message clock acc w) !! ws = fst acc !! ws).
    { intros ws Hne. unfold queue_pass_step.
      destruct (fst acc !! w); [| reflexivity]. cbn [fst].
      apply lookup_insert_ne. congruence. }
    assert (Hself : fst (queue_pass_step a message clock acc w) !! w
                    = (fun st => fst (queue_turn a message st (clock w)))
                        <$> (fst acc !! w)).
    { unfold queue_pass_step. destruct (fst acc !! w) as [st |] eqn:E; cbn [fst].
      - rewrite lookup_insert_eq. reflexivity.
      - rewrite E. reflexivity. }
    split; [| split].
    + intros ws Hout. apply not_elem_of_cons in Hout. destruct Hout as [Hne Hout].
      rewrite IHout by exact Hout. apply Hother, Hne.
    + intros ws Hin. apply elem_of_cons in Hin. destruct Hin as [-> | Hin].
      * rewrite IHout by exact Hw. exact Hself.
      * rewrite IHin by exact Hin. rewrite Hother; [reflexivity |].
        intros ->. contradiction.
    + rewrite IHd. cbn [List.filter].
      assert (Hf : List.filter
                     (marked a message clock
                        (fst (queue_pass_step a message clock acc w))) order
                   = List.filter (marked a message clock (fst acc)) order).
      { apply List.filter_ext_in. intros ws Hin. unfold marked.
        rewrite Hother; [reflexivity |]. intros ->.
        apply Hw, list_elem_of_In, Hin. }
      rewrite Hf. unfold queue_pass_step at 1, marked at 2.
      destruct (fst acc !! w) as [st |]; cbn [snd]; [| reflexivity].
      destruct (snd (queue_turn a message st (clock w))); [| reflexivity].
      rewrite <- app_assoc. reflexivity.
Qed.

Lemma unregister_all ds : forall srv,
  NoDup ds ->
  (forall ws, ws ∈ ds -> is_Some (clients srv !! ws)) ->
  let srv' := fold_left unregister_client ds srv in
  (forall ws, ws ∈ ds -> clients srv' !! ws = None)
  /\ (forall ws, ws ∉ ds -> clients srv' !! ws = clients srv !! ws)
  /\ total_disconnects srv' = total_disconnects srv + Z.of_nat (length ds)
  /\ seq srv' = seq srv
  /\ e2e_latencies srv' = e2e_latencies srv
  /\ args srv' = args srv.
Proof.
  induction ds as [| w ds IH]; intros srv Hnd Hreg; cbv zeta.
  - cbn. repeat split; try lia.
    intros ws Hin. apply elem_of_nil in Hin. contradiction.
  - apply NoDup_cons in Hnd. destruct Hnd as [Hw Hnd]. cbn [fold_left].
    destruct (Hreg w (list_elem_of_here _ _)) as [st Hst].
    pose proof (unregister_present srv w st Hst) as Hu.
    assert (Hreg' : forall ws, ws ∈ ds ->
              is_Some (clients (unregister_client srv w) !! ws)).
    { intros ws Hin. rewrite Hu. cbn [clients]. rewrite lookup_delete_ne.
      - apply Hreg. apply list_elem_of_further, Hin.
      - intros ->. contradiction. }
    specialize (IH (unregister_client srv w) Hnd Hreg'). cbv zeta in IH.
    destruct IH as (Iin & Iout & It & Is & Ie & Ia).
    assert (Hc0 : clients (unregister_client srv w) = delete w (clients srv))
      by (rewrite Hu; reflexivity).
    assert (Ht0 : total_disconnects (unregister_client srv w)
                  = total_disconnects srv + 1) by (rewrite Hu; reflexivity).
    assert (Hs0 : seq (unregister_client srv w) = seq srv)
      by (rewrite Hu; reflexivity).
    assert (He0 : e2e_latencies (unregister_client srv w) = e2e_latencies srv)
      by (rewrite Hu; reflexivity).
    assert (Ha0 : args (unregister_client srv w) = args srv)
      by (rewrite Hu; reflexivity).
    rewrite Ht0 in It. rewrite Hs0 in Is. rewrite He0 in Ie. rewrite Ha0 in Ia.
    split; [| split; [| split; [| split; [| split]]]].
    + intros ws Hin. apply elem_of_cons in Hin. destruct Hin as [-> | Hin].
      * rewrite Iout by exact Hw. rewrite Hc0. apply lookup_delete_eq.
      * apply Iin, Hin.
    + intros ws Hout. apply not_elem_of_cons in Hout. destruct Hout as [Hne Hout].
      rewrite Iout by exact Hout. rewrite Hc0. apply lookup_delete_ne. congruence.
    + rewrite It. cbn [length]. lia.
    + exact Is.
    + exact Ie.
    + exact Ia.
Qed.

Lemma filter_NoDup (f : Handle -> bool) order :
  NoDup order -> NoDup (List.filter f order).
Proof.
  intros Hnd. apply NoDup_ListNoDup. apply List.NoDup_filter.
  apply NoDup_ListNoDup, Hnd.
Qed.

Lemma elem_of_filter_bool (f : Handle -> bool) order ws :
  ws ∈ List.filter f order <-> ws ∈ order /\ f ws = true.
Proof. rewrite !list_elem_of_In. apply List.filter_In. Qed.

(** The pass and the clean-up of [broadcast_queue], client by client. *)
Lemma broadcast_queue_spec srv order message clock :
  lists_clients order srv ->
  let r := broadcast_queue srv order message clock in
  (forall ws st, clients srv !! ws = Some st ->
     clients (fst r) !! ws
     = if snd (queue_turn (args srv) message st (clock ws)) then None
       else Some (fst (queue_turn (args srv) message st (clock ws))))
  /\ (forall ws, clients srv !! ws = None -> clients (fst r) !! ws = None)
  /\ snd r = List.filter (marked (args srv) message clock (clients srv)) order
  /\ total_disconnects (fst r)
     = total_disconnects srv + Z.of_nat (length (snd r))
  /\ seq (fst r) = seq srv
  /\ e2e_latencies (fst r) = e2e_latencies srv
  /\ args (fst r) = args srv.
Proof.
  intros [Hnd Hkeys] r. subst r. unfold broadcast_queue.
  destruct (decide (clients srv = ∅)) as [Hempty | Hne].
  - cbn [fst snd]. assert (Horder : order = []).
    { destruct order as [| w order]; [reflexivity |].
      destruct (proj1 (Hkeys w) (list_elem_of_here _ _)) as [st Hst].
      rewrite Hempty, lookup_empty in Hst. discriminate. }
    subst order. cbn. repeat split; try lia.
    + intros ws st Hst. rewrite Hempty, lookup_empty in Hst. discriminate.
    + intros ws Hst. exact Hst.
  - cbn [fst snd].
    pose proof (queue_pass_spec (args srv) message clock order (clients srv, []) Hnd)
      as Hp. cbv zeta in Hp. cbn [fst snd app] in Hp.
    destruct Hp as (Pout & Pin & Pd).
    set (pass := fold_left (queue_pass_step (args srv) message clock) order
                   (clients srv, [])) in *.
    assert (Hdn : NoDup (snd pass)) by (rewrite Pd; apply filter_NoDup, Hnd).
    assert (Hdreg : forall ws, ws ∈ snd pass ->
              is_Some (clients (with_clients srv (fst pass)) !! ws)).
    { intros ws Hin. rewrite Pd in Hin. apply elem_of_filter_bool in Hin.
      destruct Hin as [Hin _]. cbn [with_clients clients]. rewrite Pin by exact Hin.
      destruct (proj1 (Hkeys ws) Hin) as [st Hst]. rewrite Hst.
      eexists. reflexivity. }
    pose proof (unregister_all (snd pass) (with_clients srv (fst pass)) Hdn Hdreg)
      as Hu. cbv zeta in Hu. destruct Hu as (Uin & Uout & Ut & Us & Ue & Ua).
    cbn [with_clients clients total_disconnects seq e2e_latencies args] in *.
    split; [| split; [| split; [| split; [| split; [| split]]]]];
      try assumption.
    + intros ws st Hst.
      assert (Hin : ws ∈ order) by (apply Hkeys; eexists; exact Hst).
      destruct (snd (queue_turn (args srv) message st (clock ws))) eqn:Hm.
      * apply Uin. rewrite Pd. apply elem_of_filter_bool. split; [exact Hin |].
        unfold marked. rewrite Hst. exact Hm.
      * rewrite Uout.
        -- rewrite Pin by exact Hin. rewrite Hst. reflexivity.
        -- rewrite Pd. intros Hc. apply elem_of_filter_bool in Hc.
           destruct Hc as [_ Hc]. unfold marked in Hc. rewrite Hst in Hc.
           congruence.
    + intros ws Hst.
      assert (Hout : ws ∉ order).
      { intros Hin. apply Hkeys in Hin. destruct Hin as [st' Hst']. congruence. }
      rewrite Uout.
      * rewrite Pout by exact Hout. exact Hst.
      * rewrite Pd. intros Hc. apply elem_of_filter_bool in Hc.
        destruct Hc as [Hc _]. contradiction.
Qed.


End Broadcast.

(** X15. What a queue-mode broadcast does, client by client.  Each
    registered client gets one turn (enqueue, then health check) on its own
    state; it is unregistered exactly when the turn marks it, and otherwise
    keeps the state the turn left.  The closed handles are the marked
    clients in the order of the walk, the disconnect counter grows by their
    number, and nothing else of the server changes.  No client's outcome
    depends on another client's state. *)
Theorem broadcast_queue_client_by_client (srv : BroadcastServer)
    (order : list Handle) (message : Item)
    (clock : Handle -> Time * Time * Time) :
  lists_clients order srv ->
  let r := broadcast_queue srv order message clock in
  (forall ws st, clients srv !! ws = Some st ->
     clients (fst r) !! ws
     = if snd (queue_turn (args srv) message st (clock ws)) then None
       else Some (fst (queue_turn (args srv) message st (clock ws))))
  /\ (forall ws, clients srv !! ws = None -> clients (fst r) !! ws = None)
  /\ snd r = List.filter (marked (args srv) message clock (clients srv)) order
  /\ total_disconnects (fst r)
     = total_disconnects srv + Z.of_nat (length (snd r))
  /\ seq (fst r) = seq srv
  /\ e2e_latencies (fst r) = e2e_latencies srv.
Proof.
  intros Hl r. subst r.
  destruct (broadcast_queue_spec srv order message clock Hl)
    as (H1 & H2 & H3 & H4 & H5 & H6 & _).
  repeat split; assumption.
Qed.


Lemma broadcast_queue_client_by_client_witness :
  let a := mkArgs queue_mode 1 (-1) 5 in
  let srv := register_client (register_client (new_BroadcastServer a) 1%nat) 2%nat in
  let clock := fun _ : Handle => (1%Q, 1%Q, 1%Q) in
  let r := broadcast_queue srv [1%nat; 2%nat] "m" clock in
  lists_clients [1%nat; 2%nat] srv
  /\ snd r = [1%nat; 2%nat]
  /\ total_disconnects (fst r) = 2.
Proof.
  assert (Hl : lists_clients [1%nat; 2%nat]
                 (register_client
                    (register_client
                       (new_BroadcastServer (mkArgs queue_mode 1 (-1) 5)) 1%nat)
                    2%nat)).
  { split.
    - repeat constructor; rewrite ?elem_of_cons, ?elem_of_nil; lia.
    - intros ws. cbn. rewrite !elem_of_cons, elem_of_nil.
      destruct (decide (ws = 2%nat)) as [-> | H2];
        [rewrite lookup_insert_eq; split; [eexists; reflexivity | auto] |].
      rewrite lookup_insert_ne by congruence.
      destruct (decide (ws = 1%nat)) as [-> | H1];
        [rewrite lookup_insert_eq; split; [eexists; reflexivity | auto] |].
      rewrite lookup_insert_ne by congruence. rewrite lookup_empty.
      split; [intros [? | [? | []]]; congruence | intros [? ?]; discriminate]. }
  pose proof (broadcast_queue_client_by_client _ _ "m"%string
                (fun _ : Handle => (1%Q, 1%Q, 1%Q)) Hl) as H.
  cbv zeta in H. destruct H as (_ & _ & Hd & Ht & _).
  split; [exact Hl |]. split.
  - rewrite Hd. vm_compute. reflexivity.
  - rewrite Ht, Hd. vm_compute. reflexivity.
Defined.


Section Naive.

Implicit Types (srv : BroadcastServer) (order : list Handle)
  (send : Handle -> send_result).

(** X17. What a naive broadcast does: every registered client is sent the
    message once; the clients whose send raised are unregistered after the
    pass, in the order of the walk; the others keep their state; the
    disconnect counter grows by the number of failed sends. *)
Theorem broadcast_naive_client_by_client (srv : BroadcastServer)
    (order : list Handle) (send : Handle -> send_result) :
  lists_clients order srv ->
  let r := broadcast_naive srv order send in
  (forall ws st, clients srv !! ws = Some st ->
     clients (fst r) !! ws = if send_failed (send ws) then None else Some st)
  /\ (forall ws, clients srv !! ws = None -> clients (fst r) !! ws = None)
  /\ snd r = List.filter (fun ws => send_failed (send ws)) order
  /\ total_disconnects (fst r)
     = total_disconnects srv + Z.of_nat (length (snd r))
  /\ seq (fst r) = seq srv
  /\ e2e_latencies (fst r) = e2e_latencies srv.
Proof.
  intros [Hnd Hkeys] r. subst r. unfold broadcast_naive.
  destruct (decide (clients srv = ∅)) as [Hempty | Hne]; cbn [fst snd].
  - assert (Horder : order = []).
    { destruct order as [| w order]; [reflexivity |].
      destruct (proj1 (Hkeys w) (list_elem_of_here _ _)) as [st Hst].
      rewrite Hempty, lookup_empty in Hst. discriminate. }
    subst order. cbn. repeat split; try lia.
    + intros ws st Hst. rewrite Hempty, lookup_empty in Hst. discriminate.
    + intros ws Hst. exact Hst.
  - set (ds := List.filter (fun ws => send_failed (send ws)) order).
    assert (Hdn : NoDup ds) by (apply filter_NoDup, Hnd).
    assert (Hdreg : forall ws, ws ∈ ds -> is_Some (clients srv !! ws)).
    { intros ws Hin. apply elem_of_filter_bool in Hin. apply Hkeys, Hin. }
    pose proof (unregister_all ds srv Hdn Hdreg) as Hu. cbv zeta in Hu.
    destruct Hu as (Uin & Uout & Ut & Us & Ue & _).
    split; [| split; [| split; [| split; [| split]]]]; try assumption;
      try reflexivity.
    + intros ws st Hst. destruct (send_failed (send ws)) eqn:Hs.
      * apply Uin. apply elem_of_filter_bool. split; [| exact Hs].
        apply Hkeys. eexists. exact Hst.
      * rewrite Uout; [exact Hst |]. intros Hc.
        apply elem_of_filter_bool in Hc. destruct Hc as [_ Hc]. congruence.
    + intros ws Hst. rewrite Uout; [exact Hst |]. intros Hc.
      apply elem_of_filter_bool in Hc. destruct Hc as [Hc _].
      apply Hkeys in Hc. destruct Hc as [st' Hst']. congruence.
Qed.

Lemma unregister_seq srv ws : seq (unregister_client srv ws) = seq srv.
Proof.
  unfold unregister_client. destruct (clients srv !! ws); reflexivity.
Qed.

Lemma unregister_fold_seq (ds : list Handle) : forall srv,
  seq (fold_left unregister_client ds srv) = seq srv.
Proof.
  induction ds as [| w ds IH]; intros srv; [reflexivity |].
  cbn [fold_left]. rewrite IH. apply unregister_seq.
Qed.

Lemma broadcast_queue_seq srv order message clock :
  seq (fst (broadcast_queue srv order message clock)) = seq srv.
Proof.
  unfold broadcast_queue. destruct (decide (clients srv = ∅)); [reflexivity |].
  cbn [fst]. rewrite unregister_fold_seq. reflexivity.
Qed.

Lemma broadcast_naive_seq srv order send :
  seq (fst (broadcast_naive srv order send)) = seq srv.
Proof.
  unfold broadcast_naive. destruct (decide (clients srv = ∅)); [reflexivity |].
  cbn [fst]. apply unregister_fold_seq.
Qed.

End Naive.

Lemma broadcast_naive_client_by_client_witness :
  let a := mkArgs naive 1 50 5 in
  let srv := register_client (register_client (new_BroadcastServer a) 1%nat) 2%nat in
  let send := fun ws : Handle =>
                if (ws =? 1)%nat then Send_ConnectionClosed else Send_ok in
  let r := broadcast_naive srv [1%nat; 2%nat] send in
  lists_clients [1%nat; 2%nat] srv
  /\ snd r = [1%nat]
  /\ total_disconnects (fst r) = 1.
Proof.
  assert (Hl : lists_clients [1%nat; 2%nat]
                 (register_client
                    (register_client
                       (new_BroadcastServer (mkArgs naive 1 50 5)) 1%nat)
                    2%nat)).
  { split.
    - repeat constructor; rewrite ?elem_of_cons, ?elem_of_nil; lia.
    - intros ws. cbn. rewrite !elem_of_cons, elem_of_nil.
      destruct (decide (ws = 2%nat)) as [-> | H2];
        [rewrite lookup_insert_eq; split; [eexists; reflexivity | auto] |].
      rewrite lookup_insert_ne by congruence.
      destruct (decide (ws = 1%nat)) as [-> | H1];
        [rewrite lookup_insert_eq; split; [eexists; reflexivity | auto] |].
      rewrite lookup_insert_ne by congruence. rewrite lookup_empty.
      split; [intros [? | [? | []]]; congruence | intros [? ?]; discriminate]. }
  pose proof (broadcast_naive_client_by_client _ _
                (fun ws : Handle =>
                   if (ws =? 1)%nat then Send_ConnectionClosed else Send_ok) Hl)
    as H.
  cbv zeta in H. destruct H as (_ & _ & Hd & Ht & _).
  split; [exact Hl |]. split.
  - rewrite Hd. reflexivity.
  - rewrite Ht, Hd. reflexivity.
Defined.

(** * Properties of the publisher *)

Section PublisherFacts.

Variable dumps : Z -> Time -> string -> Item.
Variable payload : string.

Lemma publisher_tick_seq (srv : BroadcastServer) (t : tick) :
  seq (fst (fst (publisher_tick dumps payload srv t))) = seq srv + 1
  /\ snd (fst (publisher_tick dumps payload srv t))
     = dumps (seq srv + 1) (ts_send t) payload.
Proof.
  unfold publisher_tick. cbn [fst snd]. split; [| reflexivity].
  destruct (mode (args (with_seq srv (seq srv + 1)))).
  - rewrite broadcast_naive_seq. reflexivity.
  - rewrite broadcast_queue_seq. reflexivity.
Qed.

(** X18. The publisher numbers its messages consecutively: whatever the
    mode, the clients and the evictions on the way, after [n] rounds the
    sequence counter has grown by [n], [n] messages were published, and the
    message of round [i] (from 0) carries the sequence number [seq + 1 + i]
    and the clock reading of that round.  On a new server the first message
    carries 1. *)
Theorem publisher_numbers_consecutively (ticks : list tick) :
  forall srv : BroadcastServer,
  seq (fst (publisher dumps payload srv ticks))
  = seq srv + Z.of_nat (length ticks)
  /\ length (snd (publisher dumps payload srv ticks)) = length ticks
  /\ forall (i : nat) (t : tick),
       ticks !! i = Some t ->
       snd (publisher dumps payload srv ticks) !! i
       = Some (dumps (seq srv + 1 + Z.of_nat i) (ts_send t) payload).
Proof.
  induction ticks as [| t0 ticks IH]; intros srv.
  - cbn. split; [lia | split; [reflexivity |]]. intros i t Hi.
    rewrite lookup_nil in Hi. discriminate.
  - cbn [publisher]. destruct (publisher_tick_seq srv t0) as [Hs Hm].
    destruct (publisher_tick dumps payload srv t0) as [[srv1 message] closed].
    cbn [fst snd] in Hs, Hm. specialize (IH srv1).
    destruct (publisher dumps payload srv1 ticks) as [srv2 messages].
    cbn [fst snd length] in *. destruct IH as (IHs & IHl & IHm).
    split; [lia | split; [lia |]].
    intros [| i] t Hi.
    + change (Some t0 = Some t) in Hi.
      assert (Ht : t = t0) by congruence. subst t.
      change (Some message
              = Some (dumps (seq srv + 1 + Z.of_nat 0) (ts_send t0) payload)).
      rewrite Hm. do 2 f_equal. lia.
    + change (ticks !! i = Some t) in Hi.
      change (messages !! i
              = Some (dumps (seq srv + 1 + Z.of_nat (S i)) (ts_send t) payload)).
      rewrite (IHm i t Hi), Hs. do 2 f_equal. lia.
Qed.

End PublisherFacts.

Lemma publisher_numbers_consecutively_witness :
  let dumps := fun (n : Z) (_ : Time) (p : string) =>
                 if n =? 1 then "first"%string else p in
  let idle := fun _ : Handle => (0%Q, 0%Q, 0%Q) in
  let ticks := [mkTick 10%Q [] idle (fun _ => Send_ok);
                mkTick 11%Q [] idle (fun _ => Send_ok)] in
  let r := publisher dumps "later" (new_BroadcastServer (mkArgs queue_mode 2 50 5))
             ticks in
  ticks !! 0%nat = Some (mkTick 10%Q [] idle (fun _ => Send_ok))
  /\ seq (fst r) = 2
  /\ snd r !! 0%nat = Some "first"%string.
Proof.
  pose proof (publisher_numbers_consecutively
                (fun (n : Z) (_ : Time) (p : string) =>
                   if n =? 1 then "first"%string else p)
                "later"%string
                [mkTick 10%Q [] (fun _ : Handle => (0%Q, 0%Q, 0%Q)) (fun _ => Send_ok);
                 mkTick 11%Q [] (fun _ : Handle => (0%Q, 0%Q, 0%Q)) (fun _ => Send_ok)]
                (new_BroadcastServer (mkArgs queue_mode 2 50 5))) as (Hs & _ & Hm).
  split; [reflexivity | split; [exact Hs |]].
  exact (Hm 0%nat _ eq_refl).
Defined.

(** * What a client observes *)

Section Observed.

Lemma sublist_map_inv {A B : Type} (f : A -> B) (k : list A) :
  forall l : list B,
  l `sublist_of` map f k -> exists k', l = map f k' /\ k' `sublist_of` k.
Proof.
  induction k as [| x k IH]; intros l Hl; cbn in Hl.
  - apply sublist_nil_r in Hl. subst l. exists []. split; [reflexivity | constructor].
  - apply sublist_cons_r in Hl. destruct Hl as [Hl | (l' & -> & Hl)].
    + destruct (IH l Hl) as (k' & -> & Hk'). exists k'.
      split; [reflexivity | apply sublist_cons, Hk'].
    + destruct (IH l' Hl) as (k' & -> & Hk'). exists (x :: k').
      split; [reflexivity | apply sublist_skip, Hk'].
Qed.

Lemma sublist_sorted {A : Type} (R : A -> A -> Prop) (l k : list A) :
  l `sublist_of` k -> StronglySorted R k -> StronglySorted R l.
Proof.
  induction 1 as [| x l k Hs IH | x l k Hs IH]; intros Hk.
  - constructor.
  - apply StronglySorted_inv in Hk. destruct Hk as [Hk Hx].
    constructor; [apply IH, Hk |].
    apply Forall_forall. intros y Hy. rewrite Forall_forall in Hx.
    apply Hx. eapply elem_of_sublist; eassumption.
  - apply StronglySorted_inv in Hk. apply IH, Hk.
Qed.

End Observed.

(** X19 (monotonic seq). If the messages enqueued for a client, starting
    from an empty queue, carry strictly increasing sequence numbers, then
    what the relay has taken followed by what still waits in the queue is a
    selection of those messages in the same order: its sequence numbers are
    strictly increasing, with gaps where items were dropped. *)
Theorem client_sees_increasing_seq (dumps : Z -> Time -> string -> Item)
    (payload : string) (a : Args) (ops : list op) (c : Queue * ClientState)
    (envelopes : list (Z * Time)) :
  items (fst c) = [] ->
  enqueued ops = map (fun e => dumps (fst e) (snd e) payload) envelopes ->
  StronglySorted Z.lt (map fst envelopes) ->
  exists seen : list (Z * Time),
    taken a ops c ++ items (fst (run a ops c))
    = map (fun e => dumps (fst e) (snd e) payload) seen
    /\ seen `sublist_of` envelopes
    /\ StronglySorted Z.lt (map fst seen).
Proof.
  intros Hempty Henq Hsorted.
  pose proof (run_order a ops c) as Hsub. rewrite Hempty, Henq in Hsub.
  cbn [app] in Hsub. apply sublist_map_inv in Hsub.
  destruct Hsub as (seen & Heq & Hseen).
  exists seen. split; [exact Heq | split; [exact Hseen |]].
  eapply sublist_sorted; [| exact Hsorted].
  apply (fmap_sublist fst). exact Hseen.
Qed.

Lemma client_sees_increasing_seq_witness :
  let dumps := fun (n : Z) (_ : Time) (p : string) =>
                 if n =? 1 then "one"%string
                 else if n =? 2 then "two"%string else p in
  let a := mkArgs queue_mode 1 50 5 in
  let c := (new_Queue 1, new_ClientState) in
  let ops := [Op_enqueue "one" 1 1; Op_enqueue "two" 2 2; Op_relay_get;
              Op_enqueue "three" 3 3] in
  items (fst c) = []
  /\ exists seen : list (Z * Time),
       taken a ops c ++ items (fst (run a ops c))
       = map (fun e => dumps (fst e) (snd e) "three"%string) seen
       /\ StronglySorted Z.lt (map fst seen).
Proof.
  split; [reflexivity |].
  destruct (client_sees_increasing_seq
              (fun (n : Z) (_ : Time) (p : string) =>
                 if n =? 1 then "one"%string
                 else if n =? 2 then "two"%string else p)
              "three"%string (mkArgs queue_mode 1 50 5)
              [Op_enqueue "one" 1 1; Op_enqueue "two" 2 2; Op_relay_get;
               Op_enqueue "three" 3 3]
              (new_Queue 1, new_ClientState)
              [(1, 1%Q); (2, 2%Q); (3, 3%Q)])
    as (seen & Heq & _ & Hs).
  - reflexivity.
  - reflexivity.
  - repeat constructor.
  - exists seen. split; assumption.
Defined.

(** * Properties of the relay *)

Section Relay.

Implicit Types (c : Queue * ClientState) (sends : list relay_send).

Lemma send_times_maxlen_pos : (0 < send_times_maxlen)%nat.
Proof. unfold send_times_maxlen. lia. Qed.

Ltac relay_side_goals :=
  repeat split; try reflexivity; try (intros; discriminate);
  try (intros; lia).

Lemma client_relay_spec sends : forall c,
  let r := client_relay sends c in
  let c' := fst (fst r) in
  let written := snd (fst r) in
  let why := snd r in
  (exists lost,
      items (fst c) = written ++ lost ++ items (fst c')
      /\ (lost = [] \/ exists m, lost = [m])
      /\ (lost <> [] <->
          why = Relay_closed \/ why = Relay_failed
          \/ why = Relay_cancelled_in_send))
  /\ maxsize (fst c') = maxsize (fst c)
  /\ drops_total (snd c') = drops_total (snd c)
  /\ last_drop_window (snd c') = last_drop_window (snd c)
  /\ queue_full_since (snd c') = queue_full_since (snd c)
  /\ (why = Relay_waiting -> items (fst c') = [])
  /\ ((length (send_times (snd c)) <= send_times_maxlen)%nat ->
      length (send_times (snd c'))
      = Nat.min send_times_maxlen (length (send_times (snd c)) + length written)).
Proof.
  induction sends as [| s sends IH]; intros c; cbv zeta.
  - cbn [client_relay fst snd length]. split; [| relay_side_goals].
    exists []. split; [reflexivity | split; [left; reflexivity |]].
    split; [congruence | intros [H | [H | H]]; discriminate].
  - cbn [client_relay]. unfold Queue_get_nowait.
    destruct (items (fst c)) as [| message rest] eqn:Hit.
    + cbn [fst snd length]. rewrite Hit. split; [| relay_side_goals].
      exists []. split; [reflexivity | split; [left; reflexivity |]].
      split; [congruence | intros [H | [H | H]]; discriminate].
    + destruct (send_end s) as [[| |] |].
      * specialize (IH (mkQueue (maxsize (fst c)) rest,
                        set_send_times
                          (deque_append send_times_maxlen (send_times (snd c))
                             ((send_stop s - send_start s) * 1000)%Q) (snd c))).
        cbv zeta in IH.
        destruct (client_relay sends _) as [[c2 written] why].
        cbn [fst snd items maxsize set_send_times drops_total last_drop_window
             queue_full_since send_times] in *.
        destruct IH as ((lost & Hsplit & Hlost & Hwhy) & Hm & Hd & Hw & Hf & He & Hs).
        split; [| repeat split; try assumption].
        -- exists lost. rewrite Hsplit. split; [reflexivity | split; assumption].
        -- intros Hlen. rewrite Hs.
           ++ rewrite deque_append_length
                by (pose proof send_times_maxlen_pos; lia). cbn [length]. lia.
           ++ rewrite deque_append_length
                by (pose proof send_times_maxlen_pos; lia). lia.
      * cbn [fst snd items maxsize length]. split; [| relay_side_goals].
        exists [message]. split; [reflexivity |].
        split; [right; eexists; reflexivity |].
        split; [intros _; left; reflexivity | discriminate].
      * cbn [fst snd items maxsize length]. split; [| relay_side_goals].
        exists [message]. split; [reflexivity |].
        split; [right; eexists; reflexivity |].
        split; [intros _; right; left; reflexivity | discriminate].
      * cbn [fst snd items maxsize length]. split; [| relay_side_goals].
        exists [message]. split; [reflexivity |].
        split; [right; eexists; reflexivity |].
        split; [intros _; right; right; reflexivity | discriminate].
Qed.

End Relay.

(** X20. The relay writes the queue's messages in queue order.  What was
    queued is what it wrote, then at most one message that was taken but
    lost in a write that did not return, then what it left.  A message is
    lost exactly when the relay ends on a write that raised or on a
    cancellation while a write was pending; when it ends waiting, the queue
    is empty. *)
Theorem relay_writes_in_queue_order (sends : list relay_send)
    (c : Queue * ClientState) :
  let r := client_relay sends c in
  let c' := fst (fst r) in
  let written := snd (fst r) in
  let why := snd r in
  (exists lost,
      items (fst c) = written ++ lost ++ items (fst c')
      /\ (lost = [] \/ exists m, lost = [m])
      /\ (lost <> [] <->
          why = Relay_closed \/ why = Relay_failed
          \/ why = Relay_cancelled_in_send))
  /\ (why = Relay_waiting -> items (fst c') = []).
Proof.
  pose proof (client_relay_spec sends c) as H. cbv zeta in H |- *.
  destruct H as (H1 & _ & _ & _ & _ & H2 & _). split; assumption.
Qed.

Lemma relay_writes_in_queue_order_witness :
  let c := (mkQueue 3 ["a"; "b"; "c"]%string, new_ClientState) in
  let sends := [mkRelaySend 1 2 Send_ok; mkRelaySend 3 4 Send_cancelled;
                mkRelaySend 5 6 Send_ok] in
  let r := client_relay sends c in
  snd r = Relay_cancelled_in_send
  /\ snd (fst r) = ["a"]%string
  /\ items (fst (fst (fst r))) = ["c"]%string
  /\ exists lost,
       lost <> []
       /\ items (fst c) = snd (fst r) ++ lost ++ items (fst (fst (fst r))).
Proof.
  pose proof (relay_writes_in_queue_order
                [mkRelaySend 1 2 Send_ok; mkRelaySend 3 4 Send_cancelled;
                 mkRelaySend 5 6 Send_ok]
                (mkQueue 3 ["a"; "b"; "c"]%string, new_ClientState)) as H.
  cbv zeta in H. destruct H as ((lost & Hsplit & _ & Hlost) & _).
  split; [reflexivity | split; [reflexivity | split; [reflexivity |]]].
  exists lost. split; [| exact Hsplit].
  apply Hlost. right. right. reflexivity.
Defined.

(** X21. The relay leaves the drop bookkeeping alone: [drops_total],
    [last_drop_window], [queue_full_since] and the queue's capacity are
    unchanged.  It records one duration per message written, and
    [send_times] never holds more than 100 of them. *)
Theorem relay_only_records_send_times (sends : list relay_send)
    (c : Queue * ClientState) :
  let r := client_relay sends c in
  let c' := fst (fst r) in
  let written := snd (fst r) in
  maxsize (fst c') = maxsize (fst c)
  /\ drops_total (snd c') = drops_total (snd c)
  /\ last_drop_window (snd c') = last_drop_window (snd c)
  /\ queue_full_since (snd c') = queue_full_since (snd c)
  /\ ((length (send_times (snd c)) <= send_times_maxlen)%nat ->
      length (send_times (snd c'))
      = Nat.min send_times_maxlen (length (send_times (snd c)) + length written)).
Proof.
  pose proof (client_relay_spec sends c) as H. cbv zeta in H |- *.
  destruct H as (_ & H1 & H2 & H3 & H4 & _ & H5). repeat split; assumption.
Qed.

Lemma relay_only_records_send_times_witness :
  let c := (mkQueue 3 ["a"; "b"; "c"]%string, new_ClientState) in
  let sends := [mkRelaySend 1 2 Send_ok; mkRelaySend 3 5 Send_ok;
                mkRelaySend 6 7 Send_ConnectionClosed] in
  let r := client_relay sends c in
  (length (send_times (snd c)) <= send_times_maxlen)%nat
  /\ snd (fst r) = ["a"; "b"]%string
  /\ length (send_times (snd (fst (fst r)))) = 2%nat.
Proof.
  assert (H0 : (length (send_times
                          (snd (mkQueue 3 ["a"; "b"; "c"]%string, new_ClientState)))
                <= send_times_maxlen)%nat) by (cbn; lia).
  pose proof (relay_only_records_send_times
                [mkRelaySend 1 2 Send_ok; mkRelaySend 3 5 Send_ok;
                 mkRelaySend 6 7 Send_ConnectionClosed]
                (mkQueue 3 ["a"; "b"; "c"]%string, new_ClientState)) as H.
  cbv zeta in H. destruct H as (_ & _ & _ & _ & Hs).
  split; [exact H0 | split; [reflexivity |]].
  rewrite (Hs H0). reflexivity.
Defined.

(** * Properties of the metrics *)

Section Metrics.

Lemma insert_sorted_perm (x : Q) (l : list Q) : insert_sorted x l ≡ₚ x :: l.
Proof.
  induction l as [| y l IH]; cbn; [reflexivity |].
  destruct (Qle_bool x y); [reflexivity |].
  rewrite IH. apply Permutation_swap.
Qed.

Lemma py_sort_perm (l : list Q) : py_sort l ≡ₚ l.
Proof.
  induction l as [| x l IH]; cbn; [reflexivity |].
  rewrite insert_sorted_perm, IH. reflexivity.
Qed.

Lemma insert_sorted_sorted (x : Q) (l : list Q) :
  StronglySorted Qle l -> StronglySorted Qle (insert_sorted x l).
Proof.
  induction 1 as [| y l Hs IH Hy]; cbn; [repeat constructor |].
  destruct (Qle_bool x y) eqn:E.
  - apply Qle_bool_iff in E. constructor; [constructor; assumption |].
    constructor; [exact E |].
    eapply Forall_impl; [exact Hy |]. cbn. intros z Hz. lra.
  - assert (Hyx : (y <= x)%Q).
    { destruct (Qlt_le_dec y x) as [H | H]; [lra |].
      apply Qle_bool_iff in H. congruence. }
    constructor; [exact IH |].
    rewrite (insert_sorted_perm x l). constructor; assumption.
Qed.

Lemma py_sort_sorted (l : list Q) : StronglySorted Qle (py_sort l).
Proof.
  induction l as [| x l IH]; cbn; [constructor |].
  apply insert_sorted_sorted, IH.
Qed.

Lemma p95_idx_bounds (n : nat) :
  (0 < n)%nat -> (n / 2 <= p95_idx n)%nat /\ (p95_idx n < n)%nat.
Proof.
  intros Hn. unfold p95_idx.
  assert (H2 : Z.of_nat (n / 2) = Z.of_nat n / 2) by apply Nat2Z.inj_div.
  pose proof (Z.div_mod (Z.of_nat n) 2 ltac:(lia)) as Hd2.
  pose proof (Z.mod_pos_bound (Z.of_nat n) 2 ltac:(lia)) as Hm2.
  pose proof (Z.div_mod (Z.of_nat n * 95) 100 ltac:(lia)) as Hd.
  pose proof (Z.mod_pos_bound (Z.of_nat n * 95) 100 ltac:(lia)) as Hm.
  split; lia.
Qed.

Lemma p95_idx_checked :
  forallb p95_idx_in_binary64 (List.seq 0 1001) = true.
Proof. vm_compute. reflexivity. Qed.

Lemma sorted_lookup_rel {A : Type} (R : A -> A -> Prop) (l : list A) :
  (forall x, R x x) ->
  forall (i j : nat) (x y : A),
  StronglySorted R l -> (i <= j)%nat ->
  l !! i = Some x -> l !! j = Some y -> R x y.
Proof.
  intros Hrefl. induction l as [| z l IH]; intros i j x y Hs Hij Hi Hj.
  - rewrite lookup_nil in Hi. discriminate.
  - apply StronglySorted_inv in Hs. destruct Hs as [Hs Hz].
    destruct i as [| i], j as [| j]; try lia.
    + cbn in Hi, Hj. assert (x = y) by congruence. subst. apply Hrefl.
    + change (Some z = Some x) in Hi. change (l !! j = Some y) in Hj.
      assert (x = z) by congruence. subst x.
      rewrite Forall_forall in Hz. apply Hz.
      apply list_elem_of_lookup. exists j. exact Hj.
    + change (l !! i = Some x) in Hi. change (l !! j = Some y) in Hj.
      apply (IH i j); [exact Hs | lia | exact Hi | exact Hj].
Qed.

Lemma percentiles_with_spec {A : Type} (sort : list A -> list A) (zero : A)
    (e2e : list A) :
  sort e2e ≡ₚ e2e ->
  exists p50 p95 : A,
    percentiles_with sort zero e2e = Some (p50, p95)
    /\ (e2e = [] -> p50 = zero /\ p95 = zero)
    /\ (e2e <> [] -> p50 ∈ e2e /\ p95 ∈ e2e)
    /\ (forall R : A -> A -> Prop,
          (forall x, R x x) -> StronglySorted R (sort e2e) -> R p50 p95).
Proof.
  intros Hperm. unfold percentiles_with.
  destruct (sort e2e) as [| z latencies] eqn:Hs.
  - exists zero, zero. split; [reflexivity |]. split; [auto |].
    split; [| intros R Hrefl _; apply Hrefl].
    intros Hne. apply Permutation_nil_l in Hperm. congruence.
  - set (n := length (z :: latencies)).
    assert (Hn : (0 < n)%nat) by (subst n; cbn; lia).
    destruct (p95_idx_bounds n Hn) as [Hlo Hhi].
    assert (Hi : (n / 2 < n)%nat) by lia.
    destruct (lookup_lt_is_Some_2 (z :: latencies) _ Hi) as [p50 H50].
    destruct (lookup_lt_is_Some_2 (z :: latencies) _ Hhi) as [p95 H95].
    rewrite H50, H95. exists p50, p95. split; [reflexivity |].
    split; [| split].
    + intros ->. apply Permutation_nil_r in Hperm. discriminate.
    + intros _. split.
      * rewrite <- Hperm. apply list_elem_of_lookup. eexists. exact H50.
      * rewrite <- Hperm. apply list_elem_of_lookup. eexists. exact H95.
    + intros R Hrefl Hsorted.
      eapply (sorted_lookup_rel R); [exact Hrefl | exact Hsorted | exact Hlo
                                     | eassumption ..].
Qed.

(** On finite samples the percentiles are samples in order. *)
Lemma percentiles_of_finite_samples (e2e : list Q) :
  exists p50 p95 : Q,
    percentiles e2e = Some (p50, p95)
    /\ (e2e = [] -> p50 = 0%Q /\ p95 = 0%Q)
    /\ (e2e <> [] -> p50 ∈ e2e /\ p95 ∈ e2e)
    /\ (p50 <= p95)%Q.
Proof.
  destruct (percentiles_with_spec py_sort 0%Q e2e (py_sort_perm e2e))
    as (p50 & p95 & Hp & H0 & Hin & Hord).
  exists p50, p95. split; [exact Hp | split; [exact H0 | split; [exact Hin |]]].
  apply (Hord Qle); [intros x; apply Qle_refl | apply py_sort_sorted].
Qed.

(** With [nan] in the ring the percentiles are still samples but need not be
    in order.  A ring that holds only [nan] stays as it is under any
    rearrangement: both percentiles are [nan], and [nan <= nan] is false. *)
Lemma percentiles_of_nan (sort : list float -> list float) :
  sort [nan] ≡ₚ [nan] ->
  percentiles_with sort 0%float [nan] = Some (nan, nan)
  /\ PrimFloat.leb nan nan = false.
Proof.
  intros H. apply Permutation_singleton_r in H.
  unfold percentiles_with. rewrite H. split; reflexivity.
Qed.

End Metrics.

(** X22. The percentile computation never indexes out of range.
    [latencies.sort()] returns a rearrangement of the samples, whatever
    floats they are; so with no samples both percentiles are 0, and
    otherwise both are samples of the ring.  Whenever the rearrangement is
    in order, as it is for samples without [nan], [p50] comes before or at
    [p95] in that order. *)
Theorem percentiles_in_range {A : Type} (sort : list A -> list A) (zero : A)
    (e2e : list A) :
  sort e2e ≡ₚ e2e ->
  exists p50 p95 : A,
    percentiles_with sort zero e2e = Some (p50, p95)
    /\ (e2e = [] -> p50 = zero /\ p95 = zero)
    /\ (e2e <> [] -> p50 ∈ e2e /\ p95 ∈ e2e)
    /\ (forall R : A -> A -> Prop,
          (forall x, R x x) -> StronglySorted R (sort e2e) -> R p50 p95).
Proof.
  apply percentiles_with_spec.
Qed.

Lemma percentiles_in_range_witness :
  let e2e := [30%Q; 10%Q; 20%Q] in
  py_sort e2e ≡ₚ e2e
  /\ percentiles e2e = Some (20%Q, 30%Q)
  /\ exists p50 p95 : Q,
       percentiles e2e = Some (p50, p95)
       /\ p50 ∈ e2e /\ p95 ∈ e2e /\ (p50 <= p95)%Q.
Proof.
  assert (Hperm : py_sort [30%Q; 10%Q; 20%Q] ≡ₚ [30%Q; 10%Q; 20%Q])
    by apply py_sort_perm.
  split; [exact Hperm | split; [reflexivity |]].
  destruct (percentiles_in_range py_sort 0%Q [30%Q; 10%Q; 20%Q] Hperm)
    as (p50 & p95 & Hp & _ & Hin & Hord).
  exists p50, p95. split; [exact Hp |].
  destruct (Hin ltac:(discriminate)) as [H50 H95].
  split; [exact H50 | split; [exact H95 |]].
  apply (Hord Qle); [intros x; apply Qle_refl | apply py_sort_sorted].
Defined.

(** X23. For every length the latency ring can have, up to 1000, the index
    [int(n * 0.95)] that the code computes in binary64 is the integer
    quotient of [95 n] by 100: the product lies between that integer and
    the next. *)
Theorem p95_idx_binary64 (n : nat) :
  (n <= 1000)%nat -> p95_idx_in_binary64 n = true.
Proof.
  intros Hn. pose proof p95_idx_checked as H.
  rewrite forallb_forall in H. apply H. apply in_seq. lia.
Qed.

Lemma p95_idx_binary64_witness :
  (20 <= 1000)%nat /\ p95_idx 20 = 19%nat /\ p95_idx_in_binary64 20 = true.
Proof.
  assert (H : (20 <= 1000)%nat) by lia.
  split; [exact H | split; [reflexivity |]].
  exact (p95_idx_binary64 20 H).
Defined.

(** * A client that keeps up *)

Section KeepsUp.

Implicit Types (a : Args) (c : Queue * ClientState) (ops : list op).

Lemma run_no_drops a ops : forall c,
  drop_times a ops c = [] ->
  last_drop_window (snd c) = [] ->
  queue_full_since (snd c) = None ->
  last_drop_window (snd (run a ops c)) = []
  /\ queue_full_since (snd (run a ops c)) = None.
Proof.
  induction ops as [| o ops IH]; intros c Hd Hw Hf.
  - split; assumption.
  - rewrite run_cons. cbn [drop_times] in Hd. apply app_eq_nil in Hd.
    destruct Hd as [Hhere Hrest]. apply IH; [exact Hrest | |].
    + destruct o as [item t1 t2 | now |]; cbn [step snd].
      * destruct (enqueue_window (fst c) item (snd c) t1 t2) as [[Hr _] | [_ Hk]].
        -- cbv zeta in Hr. rewrite Hr in Hhere. discriminate.
        -- cbv zeta in Hk. rewrite Hk. exact Hw.
      * rewrite check_window, Hw. reflexivity.
      * exact Hw.
    + destruct o as [item t1 t2 | now |]; cbn [step snd].
      * destruct (full (fst c)) eqn:Hfull.
        -- destruct (enqueue_full_cases (fst c) item (snd c) t1 t2 Hfull)
             as (x & rest & _ & Heq).
           rewrite Heq in Hhere |- *.
           destruct (full (mkQueue (maxsize (fst c)) rest)).
           ++ exact Hf.
           ++ cbn in Hhere. discriminate.
        -- rewrite enqueue_not_full by assumption. cbn [state_after fst snd].
           rewrite Hf. exact Hf.
      * rewrite check_queue_full_since. exact Hf.
      * exact Hf.
Qed.

End KeepsUp.

(** X24. A client that keeps up is never evicted: if no enqueue of a run
    dropped anything, starting from an empty drop window and a null
    [queue_full_since], and [drop_limit] is not negative, then a health check
    after the run answers "healthy" at any clock reading. *)
Theorem client_that_keeps_up_stays (a : Args) (ops : list op)
    (c : Queue * ClientState) (now : Time) :
  0 <= drop_limit a ->
  last_drop_window (snd c) = [] ->
  queue_full_since (snd c) = None ->
  drop_times a ops c = [] ->
  snd (should_disconnect_client a (snd (run a ops c)) now) = false.
Proof.
  intros Hlim Hw Hf Hd.
  destruct (run_no_drops a ops c Hd Hw Hf) as [Hw' Hf'].
  destruct (snd (should_disconnect_client a (snd (run a ops c)) now)) eqn:E;
    [| reflexivity].
  apply should_disconnect_iff in E. rewrite Hw', Hf' in E. cbn in E.
  destruct E as [E | (since & E & _)]; [lia | discriminate].
Qed.

Lemma client_that_keeps_up_stays_witness :
  let a := mkArgs queue_mode 2 0 5 in
  let c := (new_Queue 2, new_ClientState) in
  let ops := [Op_enqueue "a" 1 1; Op_enqueue "b" 2 2; Op_relay_get;
              Op_check 2; Op_enqueue "c" 3 3; Op_relay_get; Op_relay_get] in
  0 <= drop_limit a
  /\ drop_times a ops c = []
  /\ snd (should_disconnect_client a (snd (run a ops c)) 1000) = false.
Proof.
  assert (Hlim : 0 <= drop_limit (mkArgs queue_mode 2 0 5)) by (cbn; lia).
  split; [exact Hlim | split; [reflexivity |]].
  apply (client_that_keeps_up_stays (mkArgs queue_mode 2 0 5)
           [Op_enqueue "a" 1 1; Op_enqueue "b" 2 2; Op_relay_get;
            Op_check 2; Op_enqueue "c" 3 3; Op_relay_get; Op_relay_get]
           (new_Queue 2, new_ClientState) 1000%Q Hlim); reflexivity.
Defined.

(** * Properties of the client simulator *)

Section ClientSim.

Lemma inject_Z_lt_inv (x y : Z) : (inject_Z x < inject_Z y)%Q -> x < y.
Proof. intros H. rewrite Zlt_Qlt. exact H. Qed.

Lemma inject_Z_sub (x y : Z) : (inject_Z (x - y) == inject_Z x - inject_Z y)%Q.
Proof.
  unfold Z.sub, Qminus. rewrite inject_Z_plus, inject_Z_opp. reflexivity.
Qed.

Lemma last_any_default {A : Type} (l : list A) : forall (x d d' : A),
  List.last (x :: l) d = List.last (x :: l) d'.
Proof.
  induction l as [| y l IH]; intros x d d'; [reflexivity |].
  change (List.last (y :: l) d = List.last (y :: l) d'). apply IH.
Qed.

Lemma last_cons_from {A : Type} (l : list A) (x d : A) :
  List.last (x :: l) d = List.last l x.
Proof.
  destruct l as [| y l]; [reflexivity |].
  change (List.last (y :: l) d = List.last (y :: l) x). apply last_any_default.
Qed.

Lemma inject_Z_le_inv (x y : Z) : (inject_Z x <= inject_Z y)%Q -> x <= y.
Proof. intros H. rewrite Zle_Qle. exact H. Qed.

Lemma process_envelope (stats : ClientStats) (n : Z) (ts recv : Time)
    (payload : string) (last : Z) :
  last_seq stats = JNumber (inject_Z last) ->
  0 <= last -> last < n ->
  let stats' := process_message stats (Returns (envelope_json n ts payload)) recv in
  count stats' = count stats + 1
  /\ last_seq stats' = JNumber (inject_Z n)
  /\ length (latencies stats') = S (length (latencies stats))
  /\ (drops_inferred stats'
      == drops_inferred stats
         + (if last =? 0 then 0 else inject_Z (n - last - 1)))%Q.
Proof.
  intros Hlast H0 Hlt. unfold process_message, envelope_json.
  cbn [py_contains assoc String.eqb Ascii.eqb Bool.eqb bind py_getitem py_rsub
       last_seq as_number]. cbn -[Qltb Qplus Qminus Qmult inject_Z].
  rewrite Hlast. cbn [as_number].
  destruct (Qltb 0 (inject_Z last)) eqn:Epos.
  - apply Qltb_lt in Epos.
    assert (Hp : 0 < last) by (apply inject_Z_lt_inv; exact Epos).
    destruct (last =? 0) eqn:Ez; [apply Z.eqb_eq in Ez; lia |].
    destruct (Qltb (inject_Z last + 1) (inject_Z n)) eqn:Egap; cbn.
    + split; [reflexivity | split; [reflexivity |]].
      split; [rewrite length_app; cbn; lia |].
      rewrite !inject_Z_sub. change (inject_Z 1) with 1%Q. reflexivity.
    + split; [reflexivity | split; [reflexivity |]].
      split; [rewrite length_app; cbn; lia |].
      apply Qltb_ge in Egap.
      assert (Hn : n = last + 1).
      { assert (Hq : (inject_Z n <= inject_Z (last + 1))%Q)
          by (rewrite inject_Z_plus; exact Egap).
        apply inject_Z_le_inv in Hq. lia. }
      subst n. replace (last + 1 - last - 1) with 0 by lia.
      change (inject_Z 0) with 0%Q. lra.
  - apply Qltb_ge in Epos.
    assert (Hq : (inject_Z last <= inject_Z 0)%Q) by exact Epos.
    apply inject_Z_le_inv in Hq.
    assert (last = 0) by lia. subst last. cbn.
    split; [reflexivity | split; [reflexivity |]].
    split; [rewrite length_app; cbn; lia | lra].
Qed.

Lemma process_envelopes (payload : string) (frames : list (Z * Time * Time)) :
  forall (stats : ClientStats) (last : Z),
  last_seq stats = JNumber (inject_Z last) ->
  0 < last ->
  StronglySorted Z.lt (last :: map (fun f => fst (fst f)) frames) ->
  let stats' :=
    process_messages stats
      (map (fun f => (Returns (envelope_json (fst (fst f)) (snd (fst f)) payload),
                      snd f)) frames) in
  count stats' = count stats + Z.of_nat (length frames)
  /\ last_seq stats' = JNumber (inject_Z (List.last (map (fun f => fst (fst f)) frames) last))
  /\ (drops_inferred stats'
      == drops_inferred stats
         + inject_Z (List.last (map (fun f => fst (fst f)) frames) last - last
                     - Z.of_nat (length frames)))%Q.
Proof.
  induction frames as [| [[n ts] recv] frames IH]; intros stats last Hlast Hpos Hs.
  - cbn [map length process_messages fold_left List.last Z.of_nat].
    split; [lia | split; [exact Hlast |]].
    replace (last - last - Z.of_nat 0) with 0 by lia.
    change (inject_Z 0) with 0%Q. lra.
  - apply StronglySorted_inv in Hs. destruct Hs as [Hs Hall].
    assert (Hlt : last < n) by (apply Forall_inv in Hall; exact Hall).
    pose proof (process_envelope stats n ts recv payload last Hlast
                  ltac:(lia) Hlt) as Hone.
    cbv zeta in Hone. destruct Hone as (Hc & Hl & _ & Hd).
    assert (Hz : (last =? 0) = false) by (apply Z.eqb_neq; lia).
    rewrite Hz in Hd.
    specialize (IH _ n Hl ltac:(lia) Hs). cbv zeta in IH.
    destruct IH as (Ic & Il & Id).
    cbn [map fst snd] in *.
    change (process_messages stats
              ((Returns (envelope_json n ts payload), recv) :: ?l))
      with (process_messages
              (process_message stats (Returns (envelope_json n ts payload)) recv) l).
    rewrite (last_cons_from _ n last). split; [| split].
    + rewrite Ic, Hc. cbn [length]. lia.
    + exact Il.
    + rewrite Id, Hd. rewrite <- Qplus_assoc, <- inject_Z_plus.
      apply Qplus_inj_l. apply inject_Z_injective. cbn [length]. lia.
Qed.

End ClientSim.

(** X25. The simulator infers exactly the gaps in what it received.  After
    the envelopes of a connection, with positive and strictly increasing
    sequence numbers, [count] is the number of envelopes, [last_seq] the last
    number, and [drops_inferred] the numbers skipped between the first and the
    last envelope; what was dropped before the first envelope is not
    counted. *)
Theorem simulator_infers_gaps (payload : string) (first : Z * Time * Time)
    (frames : list (Z * Time * Time)) :
  let frame := fun f : Z * Time * Time =>
                 (Returns (envelope_json (fst (fst f)) (snd (fst f)) payload),
                  snd f) in
  let last_number := List.last (map (fun f => fst (fst f)) frames) (fst (fst first)) in
  0 < fst (fst first) ->
  StronglySorted Z.lt (map (fun f => fst (fst f)) (first :: frames)) ->
  let stats := process_messages new_ClientStats (map frame (first :: frames)) in
  count stats = 1 + Z.of_nat (length frames)
  /\ last_seq stats = JNumber (inject_Z last_number)
  /\ (drops_inferred stats
      == inject_Z (last_number - fst (fst first) - Z.of_nat (length frames)))%Q.
Proof.
  destruct first as [[s1 t1] r1]. intros frame last_number Hpos Hs stats.
  cbn [fst snd map] in *.
  pose proof (process_envelope new_ClientStats s1 t1 r1 payload 0 eq_refl
                ltac:(lia) Hpos) as Hone.
  cbv zeta in Hone. destruct Hone as (Hc & Hl & _ & Hd).
  change (0 =? 0) with true in Hd. cbn [count drops_inferred new_ClientStats] in Hc, Hd.
  pose proof (process_envelopes payload frames _ s1 Hl Hpos Hs) as Hrest.
  cbv zeta in Hrest. destruct Hrest as (Rc & Rl & Rd).
  subst stats frame last_number. unfold process_messages in *. cbn [map fold_left fst snd].
  split; [| split].
  - rewrite Rc, Hc. lia.
  - exact Rl.
  - rewrite Rd, Hd. lra.
Qed.

Lemma simulator_infers_gaps_witness :
  let frame := fun f : Z * Time * Time =>
                 (Returns (envelope_json (fst (fst f)) (snd (fst f)) "p"),
                  snd f) in
  let frames := [(3, 1%Q, 2%Q); (4, 2%Q, 3%Q); (7, 3%Q, 4%Q); (8, 4%Q, 5%Q)] in
  let stats := process_messages new_ClientStats (map frame frames) in
  0 < 3
  /\ count stats = 4
  /\ (drops_inferred stats == 2)%Q.
Proof.
  assert (Hpos : 0 < fst (fst (3, 1%Q, 2%Q))) by (cbn; lia).
  assert (Hs : StronglySorted Z.lt
                 (map (fun f : Z * Time * Time => fst (fst f))
                    ((3, 1%Q, 2%Q) :: [(4, 2%Q, 3%Q); (7, 3%Q, 4%Q); (8, 4%Q, 5%Q)]))).
  { cbn. repeat constructor; lia. }
  pose proof (simulator_infers_gaps "p" (3, 1%Q, 2%Q)
                [(4, 2%Q, 3%Q); (7, 3%Q, 4%Q); (8, 4%Q, 5%Q)]) as H.
  cbv zeta in H. destruct (H Hpos Hs) as (Hc & _ & Hd).
  split; [lia | split; [exact Hc |]]. rewrite Hd. reflexivity.
Defined.

(** X26. A sequence number that is not a number freezes the counters.  Once
    [last_seq] holds a value on which the comparison raises (a string, null,
    a list or an object), no frame changes [count], [drops_inferred] or
    [last_seq] any more, whatever is received. *)
Theorem bad_seq_freezes_counters (stats : ClientStats)
    (frames : list (outcome json * Time)) :
  as_number (last_seq stats) = None ->
  let stats' := process_messages stats frames in
  count stats' = count stats
  /\ drops_inferred stats' = drops_inferred stats
  /\ last_seq stats' = last_seq stats.
Proof.
  revert stats. induction frames as [| [decoded recv] frames IH]; intros stats Hbad.
  - repeat split.
  - cbv zeta.
    change (process_messages stats ((decoded, recv) :: frames))
      with (process_messages (process_message stats decoded recv) frames).
    assert (Hone : count (process_message stats decoded recv) = count stats
                   /\ drops_inferred (process_message stats decoded recv)
                      = drops_inferred stats
                   /\ last_seq (process_message stats decoded recv) = last_seq stats).
    { unfold process_message. destruct decoded as [data | e]; [| repeat split].
      destruct (py_contains "ts_send" data) as [[|] | e]; [| | repeat split].
      - destruct (bind (py_getitem data "ts_send") (py_rsub recv)) as [d | e];
          [| repeat split].
        destruct data; try (repeat split; fail).
        cbn [last_seq]. rewrite Hbad. repeat split.
      - destruct data; try (repeat split; fail). rewrite Hbad. repeat split. }
    destruct Hone as (H1 & H2 & H3).
    assert (Hbad' : as_number (last_seq (process_message stats decoded recv)) = None)
      by (rewrite H3; exact Hbad).
    specialize (IH _ Hbad'). cbv zeta in IH. destruct IH as (I1 & I2 & I3).
    repeat split; congruence.
Qed.

Lemma bad_seq_freezes_counters_witness :
  let first := (Returns (JObject [("seq"%string, JString "7")]), 1%Q) in
  let stats := process_messages new_ClientStats [first] in
  let later := [(Returns (envelope_json 8 1%Q "p"), 2%Q);
                (Returns (envelope_json 12 2%Q "p"), 3%Q)] in
  as_number (last_seq stats) = None
  /\ count (process_messages stats later) = 1
  /\ drops_inferred (process_messages stats later) = 0%Q.
Proof.
  assert (Hbad : as_number
                   (last_seq
                      (process_messages new_ClientStats
                         [(Returns (JObject [("seq"%string, JString "7")]), 1%Q)]))
                 = None) by reflexivity.
  pose proof (bad_seq_freezes_counters _
                [(Returns (envelope_json 8 1%Q "p"), 2%Q);
                 (Returns (envelope_json 12 2%Q "p"), 3%Q)] Hbad) as H.
  cbv zeta in H. destruct H as (Hc & Hd & _).
  split; [exact Hbad | split].
  - rewrite Hc. reflexivity.
  - rewrite Hd. reflexivity.
Defined.
